(** * open-simulator: the capacity search of [pkg/apply/apply.go]

  A shallow embedding of [DefaulterApply.Run], [Validate],
  [ParseArgsAndConfigFile] and [generateKubeClient], and the properties of
  the search loop ("Step 5: get result") that they establish.

  The code calls into packages whose sources are not part of this file
  ([pkg/simulator], [pkg/utils], [pkg/chart], [pkg/algo], the Go standard
  library).  These calls are the fields of three interfaces, [Simulator],
  [Host] and [Sorting]; everything is proved for every implementation of
  them.  Each call and each line printed by [Run] is recorded in a trace of
  [Event]s, so that "how often" and "in which order" are statements about a
  list. *)

From Stdlib Require Import List String Bool Arith ZArith Lia Permutation.
Import ListNotations.
Local Open Scope list_scope.

(** A Go [error] value, identified with its message; [nil] is [None]. *)
Definition error : Type := string.

(** [fmt.Errorf(pre + "%v" + post, err)]. *)
Definition Errorf (pre : string) (err : error) (post : string) : error :=
String.append pre (String.append err post).

(** ** Data model *)

(** The fields of [pkg/v1] that [apply.go] reads. *)
Module simonv1.
Record Cluster : Type := mkCluster
  { CustomCluster : string;
    KubeConfig : string }.

Record AppInfo : Type := mkAppInfo
  { Name : string;
    Path : string;
    Chart : bool }.

Record SimonSpec : Type := mkSimonSpec
  { SpecCluster : Cluster;
    SpecAppList : list AppInfo;
    SpecNewNode : string }.

Record Simon : Type := mkSimon
  { Spec : SimonSpec }.
End simonv1.

(** [type Options struct] (lines 30-35). *)
Module Options.
Record t : Type := mk
  { SimonConfig : string;
    DefaultSchedulerConfigFile : string;
    UseGreed : bool;
    Interactive : bool }.
End Options.

(** [type DefaulterApply struct] (lines 37-43). *)
Record DefaulterApply : Type := mkDefaulterApply
{ Cluster : simonv1.Cluster;
  AppList : list simonv1.AppInfo;
  NewNode : string;
  SchedulerConfig : string;
  UseGreed : bool }.

(** [len(s) == 0] on a Go string. *)
Definition is_empty (s : string) : bool :=
match s with
| EmptyString => true
| String _ _ => false
end.

(** ** Sorting through [sort.Interface]

  [sort.Sort(data)] sees its argument only through [Len], [Less(i, j)] and
  [Swap(i, j)].  A run of it on a slice of a given length is therefore a
  [SortProg]: it asks [Less] and continues according to the answer, or
  swaps two slots, or stops. *)
Inductive SortProg : Type :=
| SortDone : SortProg
| SortSwap : nat -> nat -> SortProg -> SortProg
| SortLess : nat -> nat -> (bool -> SortProg) -> SortProg.

Section SortInterface.
Context {A : Type}.

(** Overwrite slot [i]; out of range nothing is written (the index is
    always in range when the slot was read before). *)
Fixpoint set_nth (i : nat) (x : A) (l : list A) : list A :=
  match l, i with
  | [], _ => []
  | _ :: l', 0 => x :: l'
  | y :: l', S i' => y :: set_nth i' x l'
  end.

(** [pods[i], pods[j] = pods[j], pods[i]]; Go panics when an index is out
    of range, here the slice is left as it is. *)
Definition swap (i j : nat) (l : list A) : list A :=
  match nth_error l i, nth_error l j with
  | Some x, Some y => set_nth i y (set_nth j x l)
  | _, _ => l
  end.

(** [Less(i, j)] of a queue whose comparison looks at the two elements. *)
Definition less_at (less : A -> A -> bool) (l : list A) (i j : nat) : bool :=
  match nth_error l i, nth_error l j with
  | Some x, Some y => less x y
  | _, _ => false
  end.

(** The slice after the program has run against it. *)
Fixpoint run_sort (p : SortProg) (less : A -> A -> bool) (l : list A) : list A :=
  match p with
  | SortDone => l
  | SortSwap i j p' => run_sort p' less (swap i j l)
  | SortLess i j k => run_sort (k (less_at less l i j)) less l
  end.
End SortInterface.

(** ** The program *)

Section Apply.
(** What lives outside this file: the process's surroundings (file system,
    cluster, console, and whatever the shared [kubeClient] and [cc] point
    to), a simulator instance, and the Kubernetes objects handed between the
    calls. *)
Context {World Sim Pod Node ResourceTypes Bytes : Type}.
Context {KubeClient RestConfig CompletedConfig : Type}.

(** [simontype.ResourceInfo], as built at lines 80-83. *)
Record ResourceInfo : Type := mkResourceInfo
  { Name : string;
    Resource : ResourceTypes }.

(** What [Run] does that can be observed from outside, in program order:
    the calls of the search loop and the lines it prints.  A call carries
    its arguments, and its result where a later step depends on it. *)
Inductive Event : Type :=
| CallNew : Event
| CallRunScheduler : Event
| CallCreateFakeCluster : string -> Event
| CallAddNewNode : nat -> Event
| CallGeneratePods : list Pod -> Event
| CallGenerateDaemonPods : list Pod -> Event
| PrintSimulated : string -> nat -> nat -> Event
| CallSchedulePods : list Pod -> Event
| PrintFailed : string -> error -> Event
| PrintSuccess : string -> Event
| CallReport : Event
| CallSaveConfigMap : string -> option error -> Event
| CallConfirm : string -> bool -> Event
| CallClose : Event
| PrintCongratulations : Event.

(** An outside call: it reads and changes the surroundings. *)
Definition IO (A : Type) : Type := World -> A * World.

(** A piece of [Run]: surroundings in, result, surroundings and the events
    of this piece out. *)
Definition M (A : Type) : Type := World -> A * World * list Event.

Definition ret {A : Type} (a : A) : M A :=
  fun w => (a, w, []).

Definition bind {A B : Type} (m : M A) (k : A -> M B) : M B :=
  fun w =>
    let '(a, w1, t1) := m w in
    let '(b, w2, t2) := k a w1 in
    (b, w2, t1 ++ t2).

(** An outside call, recorded with the event [ev] of its result. *)
Definition call {A : Type} (f : IO A) (ev : A -> Event) : M A :=
  fun w => let '(a, w1) := f w in (a, w1, [ev a]).

(** An outside call that leaves no event. *)
Definition quiet {A : Type} (f : IO A) : M A :=
  fun w => let '(a, w1) := f w in (a, w1, []).

(** A line printed by [Run]. *)
Definition emit (e : Event) : M unit :=
  fun w => (tt, w, [e]).

Notation "x <- m ;; k" := (bind m (fun x => k))
  (at level 61, m at next level, right associativity).
Notation "' p <- m ;; k" := (bind m (fun x => match x with p => k end))
  (at level 61, p pattern, m at next level, right associativity).

Definition result {A : Type} (r : A * World * list Event) : A := fst (fst r).
Definition trace {A : Type} (r : A * World * list Event) : list Event := snd r.

(** *** Reading a trace *)

Definition is_CallNew (e : Event) : bool :=
  match e with CallNew => true | _ => false end.

Definition is_CallClose (e : Event) : bool :=
  match e with CallClose => true | _ => false end.

Definition is_CallGenerateDaemonPods (e : Event) : bool :=
  match e with CallGenerateDaemonPods _ => true | _ => false end.

Definition is_PrintCongratulations (e : Event) : bool :=
  match e with PrintCongratulations => true | _ => false end.

(** The calls that set a simulator up or tear it down. *)
Definition is_lifecycle (e : Event) : bool :=
  match e with
  | CallNew | CallRunScheduler | CallCreateFakeCluster _ | CallAddNewNode _
  | CallClose => true
  | _ => false
  end.

(** How many events of a kind a trace holds. *)
Definition count (p : Event -> bool) (t : list Event) : nat :=
  List.length (filter p t).

(** The numbers of new nodes asked for, in order. *)
Fixpoint trial_sizes (t : list Event) : list nat :=
  match t with
  | [] => []
  | CallAddNewNode n :: t' => n :: trial_sizes t'
  | _ :: t' => trial_sizes t'
  end.

(** The batches handed to [SchedulePods], in order. *)
Fixpoint batches (t : list Event) : list (list Pod) :=
  match t with
  | [] => []
  | CallSchedulePods pods :: t' => pods :: batches t'
  | _ :: t' => batches t'
  end.

(** The applications reported on, in order: [true] for "Success!",
    [false] for the error line. *)
Fixpoint outcomes (t : list Event) : list (string * bool) :=
  match t with
  | [] => []
  | PrintSuccess name :: t' => (name, true) :: outcomes t'
  | PrintFailed name _ :: t' => (name, false) :: outcomes t'
  | _ :: t' => outcomes t'
  end.

(** Every "Success!" line is followed at once by [sim.Report()] and the
    call that saves the config map. *)
Fixpoint persisted (t : list Event) : bool :=
  match t with
  | [] => true
  | PrintSuccess _ :: t' =>
      match t' with
      | CallReport :: CallSaveConfigMap _ _ :: _ => persisted t'
      | _ => false
      end
  | _ :: t' => persisted t'
  end.

Definition is_CallConfirm (e : Event) : bool :=
  match e with CallConfirm _ _ => true | _ => false end.

(** The config map was saved. *)
Definition is_saved (e : Event) : bool :=
  match e with CallSaveConfigMap _ None => true | _ => false end.

Definition is_CallGeneratePods (e : Event) : bool :=
  match e with CallGeneratePods _ => true | _ => false end.

(** The lines of report that tell of an application that was not placed. *)
Definition failures (t : list Event) : list (string * bool) :=
  filter (fun o => negb (snd o)) (outcomes t).

(** [pkg/simulator]: one instance is one fake cluster with its scheduler.
    A method that changes the instance returns it changed.
    [GenerateValidPodsFromResources] is given [sim.GetFakeClient()], the
    instance's own client, so it too works on the instance. *)
Record Simulator : Type := mkSimulator
  { New : option KubeClient -> CompletedConfig -> IO (error + Sim);
    RunScheduler : Sim -> IO Sim;
    CreateFakeCluster : Sim -> string -> IO (option error * Sim);
    AddNewNode : Sim -> Node -> nat -> IO (option error * Sim);
    GenerateValidPodsFromResources : Sim -> ResourceTypes -> IO (list Pod * Sim);
    GenerateValidDaemonPodsForNewNode : Sim -> IO (list Pod * Sim);
    GetNodes : Sim -> list Node;
    SchedulePods : Sim -> list Pod -> IO (option error * Sim);
    Report : Sim -> IO Sim;
    CreateConfigMapAndSaveItToFile : Sim -> string -> IO (option error * Sim);
    Close : Sim -> IO unit }.

(** Files, manifests, the cluster client and the console: [ioutil], [os],
    [yaml], [json], [pkg/chart], [pkg/utils], [client-go].
    [utils_DecodeYamlFile] includes the type assertion to [*corev1.Node]
    of line 87.  [getAndSetSchedulerConfig] (lines 206-245) only assembles
    the scheduler configuration that is passed on to [simulator.New]; it is
    taken whole, by the two fields of the applier it reads. *)
Record Host : Type := mkHost
  { ioutil_ReadFile : string -> IO (error + Bytes);
    yaml_YAMLToJSON : Bytes -> error + Bytes;
    json_Unmarshal : Bytes -> error + simonv1.Simon;
    os_Stat : string -> IO (option error);
    chart_ProcessChart : string -> string -> IO (error + string);
    utils_ParseFilePath : string -> IO (error + list string);
    utils_GetObjectsFromFiles : list string -> IO (error + ResourceTypes);
    utils_DecodeYamlFile : string -> IO (option Node);
    utils_GetMasterFromKubeConfig : string -> IO (error + string);
    clientcmd_BuildConfigFromFlags : string -> string -> IO (error + RestConfig);
    clientset_NewForConfig : RestConfig -> IO (error + KubeClient);
    getAndSetSchedulerConfig : string -> bool -> IO (error + CompletedConfig);
    utils_GetTotalNumberOfPodsWithoutNodeName : list Pod -> nat;
    utils_Confirm : string -> IO bool;
    ConfigMapFileName : string }.

(** [pkg/algo] and [sort]: the comparison of a [GreedQueue] over the given
    nodes, and the program [sort.Sort] runs on data of a given length.
    The queue holds the very slice it was made from, so the slice is what
    gets sorted. *)
Record Sorting : Type := mkSorting
  { GreedQueue_Less : list Node -> Pod -> Pod -> bool;
    sort_Sort : nat -> SortProg }.

Variable SIM : Simulator.
Variable HOST : Host.
Variable SORT : Sorting.

(** *** [ParseArgsAndConfigFile] (lines 247-269) *)
Definition ParseArgsAndConfigFile (applier : DefaulterApply) (opts : Options.t)
  : M (option error * DefaulterApply) :=
  configFile <- quiet (ioutil_ReadFile HOST (Options.SimonConfig opts)) ;;
  match configFile with
  | inl err =>
      ret (Some (String.append "failed to read config file("
                   (String.append (Options.SimonConfig opts)
                      (String.append "): " err))), applier)
  | inr configFile =>
      match yaml_YAMLToJSON HOST configFile with
      | inl err =>
          ret (Some (String.append "failed to unmarshal config file("
                       (String.append (Options.SimonConfig opts)
                          (String.append ") to json: " err))), applier)
      | inr configJSON =>
          match json_Unmarshal HOST configJSON with
          | inl err =>
              ret (Some (Errorf "failed to unmarshal config json to object: " err ""),
                   applier)
          | inr simonCR =>
              ret (None,
                   {| Cluster := simonv1.SpecCluster (simonv1.Spec simonCR);
                      AppList := simonv1.SpecAppList (simonv1.Spec simonCR);
                      NewNode := simonv1.SpecNewNode (simonv1.Spec simonCR);
                      SchedulerConfig := Options.DefaultSchedulerConfigFile opts;
                      UseGreed := Options.UseGreed opts |})
          end
      end
  end.

(** *** [Validate] (lines 271-308) *)

(** [if len(path) != 0 { if _, err := os.Stat(path); err != nil { ... } }] *)
Definition stat_if_set (path : string) (what : string) : M (option error) :=
  if is_empty path then ret None
  else
    err <- quiet (os_Stat HOST path) ;;
    match err with
    | Some err => ret (Some (Errorf what err ""))
    | None => ret None
    end.

(** The loop of lines 301-305. *)
Fixpoint stat_apps (apps : list simonv1.AppInfo) : M (option error) :=
  match apps with
  | [] => ret None
  | app :: apps' =>
      err <- quiet (os_Stat HOST (simonv1.Path app)) ;;
      match err with
      | Some err =>
          ret (Some (String.append "invalid path of "
                       (String.append (simonv1.Name app)
                          (String.append " app: " err))))
      | None => stat_apps apps'
      end
  end.

(** The condition of lines 272-273. *)
Definition both_or_neither (c : simonv1.Cluster) : bool :=
  (is_empty (simonv1.KubeConfig c) && is_empty (simonv1.CustomCluster c))
  || (negb (is_empty (simonv1.KubeConfig c))
      && negb (is_empty (simonv1.CustomCluster c))).

Definition Validate (applier : DefaulterApply) : M (option error) :=
  if both_or_neither (Cluster applier)
  then ret (Some "only one of values of both kubeConfig and customConfig must exist"%string)
  else
    e1 <- stat_if_set (simonv1.KubeConfig (Cluster applier)) "invalid path of kubeConfig: " ;;
    match e1 with
    | Some e => ret (Some e)
    | None =>
    e2 <- stat_if_set (simonv1.CustomCluster (Cluster applier)) "invalid path of customConfig: " ;;
    match e2 with
    | Some e => ret (Some e)
    | None =>
    e3 <- stat_if_set (SchedulerConfig applier) "invalid path of scheduler config: " ;;
    match e3 with
    | Some e => ret (Some e)
    | None =>
    e4 <- stat_if_set (NewNode applier) "invalid path of newNode: " ;;
    match e4 with
    | Some e => ret (Some e)
    | None => stat_apps (AppList applier)
    end end end end.

(** *** [generateKubeClient] (lines 181-203) *)
Definition generateKubeClient (applier : DefaulterApply)
  : M (error + option KubeClient) :=
  if is_empty (simonv1.KubeConfig (Cluster applier)) then ret (inr None)
  else
    master <- quiet (utils_GetMasterFromKubeConfig HOST (simonv1.KubeConfig (Cluster applier))) ;;
    match master with
    | inl err => ret (inl (Errorf "Failed to parse kubeclient file: " err " "))
    | inr master =>
        cfg <- quiet (clientcmd_BuildConfigFromFlags HOST master
                        (simonv1.KubeConfig (Cluster applier))) ;;
        match cfg with
        | inl err => ret (inl (Errorf "Unable to build config: " err " "))
        | inr cfg =>
            kubeClient <- quiet (clientset_NewForConfig HOST cfg) ;;
            match kubeClient with
            | inl err => ret (inl err)
            | inr kubeClient => ret (inr (Some kubeClient))
            end
        end
    end.

(** *** [Run], the loop over the applications (lines 57-85) *)
Fixpoint load_resources (apps : list simonv1.AppInfo) (resourceList : list ResourceInfo)
  : M (error + list ResourceInfo) :=
  match apps with
  | [] => ret (inr resourceList)
  | app :: apps' =>
      newPath <-
        (if simonv1.Chart app
         then quiet (chart_ProcessChart HOST (simonv1.Name app) (simonv1.Path app))
         else ret (inr (simonv1.Path app))) ;;
      match newPath with
      | inl err => ret (inl err)
      | inr newPath =>
          appFilePaths <- quiet (utils_ParseFilePath HOST newPath) ;;
          match appFilePaths with
          | inl err =>
              ret (inl (Errorf "Failed to parse the application config path: " err " "))
          | inr appFilePaths =>
              appResource <- quiet (utils_GetObjectsFromFiles HOST appFilePaths) ;;
              match appResource with
              | inl err => ret (inl err)
              | inr appResource =>
                  load_resources apps'
                    (resourceList ++ [ {| Name := simonv1.Name app;
                                          Resource := appResource |} ])
              end
          end
      end
  end.

(** *** [Run], step 5: the search (lines 105-176) *)

(** "sort pods" (lines 138-145): with [UseGreed] the slice is sorted in
    place through a [GreedQueue] over the simulator's nodes; without it the
    slice is left alone. *)
Definition sort_pods (applier : DefaulterApply) (sim : Sim) (appPods : list Pod)
  : list Pod :=
  if UseGreed applier
  then run_sort (sort_Sort SORT (List.length appPods))
         (GreedQueue_Less SORT (GetNodes SIM sim)) appPods
  else appPods.

(** The prompt of line 161. *)
Definition prompt_of (name : string) : string :=
  String.append name " scheduled succeessfully, continue(y/n)?".

(** How the loop over [resourceList] is left: by [return err] (line 158),
    or by running out of applications or [break], with the value of
    [success] and the instance as they then are. *)
Inductive RangeExit : Type :=
| RangeReturn : error -> RangeExit
| RangeEnd : bool -> Sim -> RangeExit.

(** The loop of lines 128-169.  [success] and [added] are the two flags
    of line 127; [success = false] of line 129 is overwritten on every
    way out of the body. *)
Fixpoint schedule_apps (opts : Options.t) (applier : DefaulterApply)
  (sim : Sim) (success added : bool) (resourceList : list ResourceInfo)
  : M RangeExit :=
  match resourceList with
  | [] => ret (RangeEnd success sim)
  | resourceInfo :: rest =>
      '(appPods, sim) <-
        call (GenerateValidPodsFromResources SIM sim (Resource resourceInfo))
          (fun r => CallGeneratePods (fst r)) ;;
      '(appPods, sim) <-
        (if added then ret (appPods, sim)
         else
           '(daemonPods, sim) <-
             call (GenerateValidDaemonPodsForNewNode SIM sim)
               (fun r => CallGenerateDaemonPods (fst r)) ;;
           ret (appPods ++ daemonPods, sim)) ;;
      let appPods := sort_pods applier sim appPods in
      _ <- emit (PrintSimulated (Name resourceInfo) (List.length appPods)
                   (utils_GetTotalNumberOfPodsWithoutNodeName HOST appPods)) ;;
      '(err, sim) <-
        call (SchedulePods SIM sim appPods) (fun _ => CallSchedulePods appPods) ;;
      match err with
      | Some err =>
          _ <- emit (PrintFailed (Name resourceInfo) err) ;;
          ret (RangeEnd false sim)
      | None =>
          _ <- emit (PrintSuccess (Name resourceInfo)) ;;
          sim <- call (Report SIM sim) (fun _ => CallReport) ;;
          '(err, sim) <-
            call (CreateConfigMapAndSaveItToFile SIM sim (ConfigMapFileName HOST))
              (fun r => CallSaveConfigMap (ConfigMapFileName HOST) (fst r)) ;;
          match err with
          | Some err => ret (RangeReturn err)
          | None =>
              if Options.Interactive opts
              then
                continue <-
                  call (utils_Confirm HOST (prompt_of (Name resourceInfo)))
                    (CallConfirm (prompt_of (Name resourceInfo))) ;;
                if (continue : bool)
                then schedule_apps opts applier sim true true rest
                else ret (RangeEnd true sim)
              else schedule_apps opts applier sim true true rest
          end
      end
  end.

(** How one pass of the outer loop ends: by [return], or at line 172 with
    the value of [success]. *)
Inductive RoundExit : Type :=
| RoundReturn : error -> RoundExit
| RoundEnd : bool -> RoundExit.

Section Search.
Variable opts : Options.t.
Variable applier : DefaulterApply.
Variable kubeClient : option KubeClient.
Variable cc : CompletedConfig.
Variable newNode : Node.
Variable resourceList : list ResourceInfo.

(** Lines 106-123: a new simulator, its scheduler, the fake cluster, and
    [i] new nodes. *)
Definition init_simulator (i : nat) : M (error + Sim) :=
  sim <- call (New SIM kubeClient cc) (fun _ => CallNew) ;;
  match sim with
  | inl err => ret (inl err)
  | inr sim =>
      sim <- call (RunScheduler SIM sim) (fun _ => CallRunScheduler) ;;
      '(err, sim) <-
        call (CreateFakeCluster SIM sim (simonv1.CustomCluster (Cluster applier)))
          (fun _ => CallCreateFakeCluster (simonv1.CustomCluster (Cluster applier))) ;;
      match err with
      | Some err => ret (inl (Errorf "create fake cluster failed: " err ""))
      | None =>
          '(err, sim) <-
            call (AddNewNode SIM sim newNode i) (fun _ => CallAddNewNode i) ;;
          match err with
          | Some err => ret (inl err)
          | None => ret (inr sim)
          end
      end
  end.

(** The body of the outer loop up to line 172, for the value [i] of the
    loop variable. *)
Definition round (i : nat) : M RoundExit :=
  sim <- init_simulator i ;;
  match sim with
  | inl err => ret (RoundReturn err)
  | inr sim =>
      x <- schedule_apps opts applier sim false false resourceList ;;
      match x with
      | RangeReturn err => ret (RoundReturn err)
      | RangeEnd success sim =>
          _ <- call (Close SIM sim) (fun _ => CallClose) ;;
          ret (RoundEnd success)
      end
  end.

(** How the outer loop is left: by [break] (line 174) at a value of [i], by
    its condition [i < 100] failing, or by a [return err] inside. *)
Inductive LoopExit : Type :=
| Broke : nat -> LoopExit
| Finished : LoopExit
| Returned : error -> LoopExit.

(** [for i := ...; i < bound; i++], with [n = bound - i] passes to go. *)
Fixpoint search (n i : nat) : M LoopExit :=
  match n with
  | 0 => ret Finished
  | S n' =>
      x <- round i ;;
      match x with
      | RoundReturn err => ret (Returned err)
      | RoundEnd true =>
          _ <- emit PrintCongratulations ;;
          ret (Broke i)
      | RoundEnd false => search n' (S i)
      end
  end.

(** Lines 105-177: [for i := 0; i < 100; i++ { ... }; return nil]. *)
Definition get_result : M (option error) :=
  x <- search 100 0 ;;
  match x with
  | Returned err => ret (Some err)
  | Broke _ => ret None
  | Finished => ret None
  end.
End Search.

(** *** [Run] (lines 45-178) *)
Definition Run (applier : DefaulterApply) (opts : Options.t) : M (option error) :=
  '(err, applier) <- ParseArgsAndConfigFile applier opts ;;
  match err with
  | Some err => ret (Some (Errorf "Parse Error: " err " "))
  | None =>
  err <- Validate applier ;;
  match err with
  | Some err => ret (Some (Errorf "Invalid information: " err " "))
  | None =>
  resourceList <- load_resources (AppList applier) [] ;;
  match resourceList with
  | inl err => ret (Some err)
  | inr resourceList =>
  newNode <- quiet (utils_DecodeYamlFile HOST (NewNode applier)) ;;
  match newNode with
  | None =>
      ret (Some (Errorf "The NewNode file(" (NewNode applier) ") is not a Node yaml "))
  | Some newNode =>
  kubeClient <- generateKubeClient applier ;;
  match kubeClient with
  | inl err => ret (Some (Errorf "Failed to get kubeclient: " err " "))
  | inr kubeClient =>
  cc <- quiet (getAndSetSchedulerConfig HOST (SchedulerConfig applier) (UseGreed applier)) ;;
  match cc with
  | inl err => ret (Some err)
  | inr cc => get_result opts applier kubeClient cc newNode resourceList
  end end end end end end.

End Apply.

(** ** [getAndSetSchedulerConfig] (lines 206-245)

    The function that [Host] takes whole, by itself.  Of the types of
    kube-scheduler it uses the fields it reads or writes; what else a type
    holds is carried along as one field of a type left open.  The defaulted
    v1beta1 configuration and its conversion (lines 207-213) do not depend on
    anything the function is given: their outcome is one value of the
    environment. *)
Module scheduler.
Section Config.
Context {World CompletedConfig : Type}.
Context {OtherPoints PluginConfigs OtherSettings LogOptions : Type}.

Record Plugin : Type := mkPlugin
  { Name : string;
    Weight : Z }.

Record PluginSet : Type := mkPluginSet
  { Enabled : list Plugin;
    Disabled : list Plugin }.

Record Plugins : Type := mkPlugins
  { Score : option PluginSet;
    Bind : option PluginSet;
    OtherExtensionPoints : OtherPoints }.

Record KubeSchedulerProfile : Type := mkProfile
  { SchedulerName : string;
    ProfilePlugins : option Plugins;
    PluginConfig : PluginConfigs }.

Record KubeSchedulerConfiguration : Type := mkConfiguration
  { PercentageOfNodesToScore : Z;
    Profiles : list KubeSchedulerProfile;
    OtherFields : OtherSettings }.

(** [schedoptions.Options], as built at lines 235-239. *)
Record Options : Type := mkOptions
  { ComponentConfig : KubeSchedulerConfiguration;
    ConfigFile : string;
    Logs : LogOptions }.

Record Env : Type := mkEnv
  { converted_defaults : error + KubeSchedulerConfiguration;
    utils_InitKubeSchedulerConfiguration :
      Options -> World -> (error + CompletedConfig) * World;
    logs_NewOptions : LogOptions;
    no_points : OtherPoints;
    no_plugin_config : PluginConfigs;
    corev1_DefaultSchedulerName : string;
    simontype_SimonPluginName : string;
    defaultbinder_Name : string }.

Variable ENV : Env.

(** [{Name: simontype.SimonPluginName}] and [{Name: defaultbinder.Name}]. *)
Definition simon_plugin : Plugin :=
  {| Name := simontype_SimonPluginName ENV; Weight := 0 |}.

Definition default_binder : Plugin :=
  {| Name := defaultbinder_Name ENV; Weight := 0 |}.

(** Lines 219-232, on the first profile. *)
Definition set_profile (useGreed : bool) (p : KubeSchedulerProfile)
  : KubeSchedulerProfile :=
  let plugins :=
    match ProfilePlugins p with
    | None => {| Score := None; Bind := None; OtherExtensionPoints := no_points ENV |}
    | Some plugins => plugins
    end in
  let plugins :=
    if useGreed
    then {| Score := Some {| Enabled := [simon_plugin]; Disabled := [] |};
            Bind := Bind plugins;
            OtherExtensionPoints := OtherExtensionPoints plugins |}
    else plugins in
  {| SchedulerName := corev1_DefaultSchedulerName ENV;
     ProfilePlugins :=
       Some {| Score := Score plugins;
               Bind := Some {| Enabled := [simon_plugin];
                               Disabled := [default_binder] |};
               OtherExtensionPoints := OtherExtensionPoints plugins |};
     PluginConfig := PluginConfig p |}.

(** [KubeSchedulerProfile{}], the profile of lines 215-217. *)
Definition empty_profile : KubeSchedulerProfile :=
  {| SchedulerName := ""; ProfilePlugins := None;
     PluginConfig := no_plugin_config ENV |}.

(** Lines 214-234: what becomes of the converted configuration. *)
Definition set_configuration (useGreed : bool) (kcfg : KubeSchedulerConfiguration)
  : KubeSchedulerConfiguration :=
  {| PercentageOfNodesToScore := 100;
     Profiles :=
       match Profiles kcfg with
       | [] => [set_profile useGreed empty_profile]
       | p :: rest => set_profile useGreed p :: rest
       end;
     OtherFields := OtherFields kcfg |}.

(** The plugins of the first profile as the defaults have them, if any. *)
Definition first_plugins (kcfg : KubeSchedulerConfiguration) : option Plugins :=
  match Profiles kcfg with
  | [] => None
  | p :: _ => ProfilePlugins p
  end.

Definition getAndSetSchedulerConfig (applier : DefaulterApply)
  : World -> (error + CompletedConfig) * World :=
  fun w =>
    match converted_defaults ENV with
    | inl err => (inl err, w)
    | inr kcfg =>
        let opts :=
          {| ComponentConfig := set_configuration (UseGreed applier) kcfg;
             ConfigFile := SchedulerConfig applier;
             Logs := logs_NewOptions ENV |} in
        let '(cc, w1) := utils_InitKubeSchedulerConfiguration ENV opts w in
        match cc with
        | inl err =>
            (inl (Errorf "failed to init kube scheduler configuration: " err " "), w1)
        | inr cc => (inr cc, w1)
        end
    end.
End Config.
End scheduler.

(** ** [sort.Sort] on short slices

    The Go releases this code was written against (before 1.19) sort data of
    at most 12 elements by one Shell pass with gap 6 followed by insertion
    sort: [quickSort(data, 0, n, _)] skips its partitioning loop and runs

      for i := a + 6; i < b; i++ { if data.Less(i, i-6) { data.Swap(i, i-6) } }
      insertionSort(data, a, b)
*)

(** [for j := i; j > a && data.Less(j, j-1); j-- { data.Swap(j, j-1) }] *)
Fixpoint insertion_inner (a j : nat) (k : SortProg) : SortProg :=
  match j with
  | 0 => k
  | S j' =>
      if j <=? a then k
      else SortLess j j'
             (fun b => if b then SortSwap j j' (insertion_inner a j' k) else k)
  end.

(** [for i := ...; i < b; i++ { ... }], with [n = b - i] passes to go. *)
Fixpoint insertion_outer (a n i : nat) (k : SortProg) : SortProg :=
  match n with
  | 0 => k
  | S n' => insertion_inner a i (insertion_outer a n' (S i) k)
  end.

Definition insertionSort (a b : nat) (k : SortProg) : SortProg :=
  insertion_outer a (b - (a + 1)) (a + 1) k.

(** The Shell pass, with [n = b - i] passes to go. *)
Fixpoint shell_pass (n i : nat) (k : SortProg) : SortProg :=
  match n with
  | 0 => k
  | S n' =>
      SortLess i (i - 6)
        (fun b => if b then SortSwap i (i - 6) (shell_pass n' (S i) k)
                  else shell_pass n' (S i) k)
  end.

(** [quickSort(data, 0, n, _)] for [n <= 12]. *)
Definition sort_short (n : nat) : SortProg :=
  if 1 <? n then shell_pass (n - 6) 6 (insertionSort 0 n SortDone)
  else SortDone.

(** ** A small cluster to run the program on

    Pods are (number, weight) pairs; a fake cluster is its count of free
    slots, one slot per pod; a manifest path stands for as many pods as it
    has characters, the cluster file for as many free slots as its name has
    characters, and the node file for a node with one slot less than its
    name has characters.  Nothing depends on the surroundings. *)
Module Demo.

Definition Pod : Type := (nat * nat)%type.

(** [daemons] daemon pods per round; saving the report works or not. *)
Definition simulator (daemons : nat) (save_ok : bool)
  : @Simulator nat nat Pod nat nat unit unit :=
  {| New := fun _ _ w => (inr 0, w);
     RunScheduler := fun s w => (s, w);
     CreateFakeCluster := fun s path w => ((None, s + String.length path), w);
     AddNewNode := fun s node i w => ((None, s + i * node), w);
     GenerateValidPodsFromResources :=
       fun s r w => ((map (fun n => (n, 0)) (seq 0 r), s), w);
     GenerateValidDaemonPodsForNewNode :=
       fun s w => ((map (fun n => (n, 1)) (seq 0 daemons), s), w);
     GetNodes := fun _ => [];
     SchedulePods :=
       fun s pods w =>
         if List.length pods <=? s then ((None, s - List.length pods), w)
         else ((Some "unschedulable"%string, s), w);
     Report := fun s w => (s, w);
     CreateConfigMapAndSaveItToFile :=
       fun s _ w => ((if save_ok then None else Some "disk full"%string, s), S w);
     Close := fun _ w => (tt, w) |}.

(** The configuration file holds [cr]; the operator answers [answer]. *)
Definition host (cr : simonv1.Simon) (answer : bool)
  : @Host nat Pod nat nat unit unit unit unit :=
  {| ioutil_ReadFile := fun _ w => (inr tt, w);
     yaml_YAMLToJSON := fun b => inr b;
     json_Unmarshal := fun _ => inr cr;
     os_Stat := fun _ w => (None, w);
     chart_ProcessChart := fun _ path w => (inr path, w);
     utils_ParseFilePath := fun path w => (inr [path], w);
     utils_GetObjectsFromFiles :=
       fun paths w => (inr (list_sum (map String.length paths)), w);
     utils_DecodeYamlFile := fun path w => (Some (String.length path - 1), w);
     utils_GetMasterFromKubeConfig := fun _ w => (inr ""%string, w);
     clientcmd_BuildConfigFromFlags := fun _ _ w => (inr tt, w);
     clientset_NewForConfig := fun _ w => (inr tt, w);
     getAndSetSchedulerConfig := fun _ _ w => (inr tt, w);
     utils_GetTotalNumberOfPodsWithoutNodeName := fun pods => List.length pods;
     utils_Confirm := fun _ w => (answer, w);
     ConfigMapFileName := "configmap-simon.yaml" |}.

(** Lighter pods first. *)
Definition sorting : @Sorting Pod nat :=
  {| GreedQueue_Less := fun _ p q => snd p <? snd q;
     sort_Sort := sort_short |}.

Definition app (name path : string) : simonv1.AppInfo :=
  {| simonv1.Name := name; simonv1.Path := path; simonv1.Chart := false |}.

Definition config (kube custom : string) (apps : list simonv1.AppInfo) (node : string)
  : simonv1.Simon :=
  {| simonv1.Spec :=
       {| simonv1.SpecCluster :=
            {| simonv1.CustomCluster := custom; simonv1.KubeConfig := kube |};
          simonv1.SpecAppList := apps;
          simonv1.SpecNewNode := node |} |}.

Definition options (greed interactive : bool) : Options.t :=
  {| Options.SimonConfig := "simon-config.yaml";
     Options.DefaultSchedulerConfigFile := "";
     Options.UseGreed := greed;
     Options.Interactive := interactive |}.

Definition zero : DefaulterApply :=
  {| Cluster := {| simonv1.CustomCluster := ""; simonv1.KubeConfig := "" |};
     AppList := []; NewNode := ""; SchedulerConfig := ""; UseGreed := false |}.

(** [simon apply] on the configuration [cr]. *)
Definition run (cr : simonv1.Simon) (greed interactive answer : bool)
  (daemons : nat) (save_ok : bool) : option error * nat * list (@Event Pod) :=
  Run (simulator daemons save_ok) (host cr answer) sorting zero
    (options greed interactive) 0.

(** Two free slots in the cluster, application A of three pods, a new node
    with two slots. *)
Definition fits_at_1 : simonv1.Simon := config "" "cc" [app "A" "aaa"] "n++".

(** The same with a new node without a slot. *)
Definition never_fits : simonv1.Simon := config "" "cc" [app "A" "aaa"] "n".

(** Application A of one pod, then application B of nine. *)
Definition two_apps : simonv1.Simon :=
  config "" "cc" [app "A" "a"; app "B" "bbbbbbbbb"] "n++".

(** No application at all. *)
Definition no_apps : simonv1.Simon := config "" "cc" [] "n++".

(** Both cluster sources given. *)
Definition both_sources : simonv1.Simon :=
  config "kubeconfig" "cc" [app "A" "aaa"] "n++".


(** What [Run] has in hand when the search starts on [cr]. *)
Definition applier_of (cr : simonv1.Simon) (greed : bool) : DefaulterApply :=
  {| Cluster := simonv1.SpecCluster (simonv1.Spec cr);
     AppList := simonv1.SpecAppList (simonv1.Spec cr);
     NewNode := simonv1.SpecNewNode (simonv1.Spec cr);
     SchedulerConfig := "";
     UseGreed := greed |}.

Definition resources_of (cr : simonv1.Simon) : list (@ResourceInfo nat) :=
  map (fun a => {| Name := simonv1.Name a;
                   Resource := String.length (simonv1.Path a) |})
    (simonv1.SpecAppList (simonv1.Spec cr)).

Definition node_of (cr : simonv1.Simon) : nat :=
  String.length (simonv1.SpecNewNode (simonv1.Spec cr)) - 1.

(** The pass for [i] of the search on [cr]. *)
Definition pass (cr : simonv1.Simon) (greed interactive answer : bool)
  (daemons : nat) (save_ok : bool) (i : nat)
  : @RoundExit * nat * list (@Event Pod) :=
  round (simulator daemons save_ok) (host cr answer) sorting
    (options greed interactive) (applier_of cr greed) None tt (node_of cr)
    (resources_of cr) i 0.

(** The loop of the search on [cr]. *)
Definition loop (cr : simonv1.Simon) (greed interactive answer : bool)
  (daemons : nat) (save_ok : bool)
  : @LoopExit * nat * list (@Event Pod) :=
  search (simulator daemons save_ok) (host cr answer) sorting
    (options greed interactive) (applier_of cr greed) None tt (node_of cr)
    (resources_of cr) 100 0 0.

(** Defaults with two profiles, the first one binding and scoring by
    plugins of its own; the completed configuration is the number of its
    profiles. *)
Definition scheduler_env
  : @scheduler.Env nat nat (list string) (list string) unit unit :=
  {| scheduler.converted_defaults :=
       inr {| scheduler.PercentageOfNodesToScore := 50%Z;
              scheduler.Profiles :=
                [ {| scheduler.SchedulerName := "mine";
                     scheduler.ProfilePlugins :=
                       Some {| scheduler.Score :=
                                 Some {| scheduler.Enabled :=
                                           [ {| scheduler.Name := "NodeResourcesFit";
                                                scheduler.Weight := 2%Z |} ];
                                         scheduler.Disabled := [] |};
                               scheduler.Bind :=
                                 Some {| scheduler.Enabled :=
                                           [ {| scheduler.Name := "DefaultBinder";
                                                scheduler.Weight := 0%Z |} ];
                                         scheduler.Disabled := [] |};
                               scheduler.OtherExtensionPoints := ["Filter"%string] |};
                     scheduler.PluginConfig := ["args"%string] |};
                  {| scheduler.SchedulerName := "other";
                     scheduler.ProfilePlugins := None;
                     scheduler.PluginConfig := [] |} ];
              scheduler.OtherFields := tt |};
     scheduler.utils_InitKubeSchedulerConfiguration :=
       fun o w =>
         (inr (List.length (scheduler.Profiles (scheduler.ComponentConfig o))), w);
     scheduler.logs_NewOptions := tt;
     scheduler.no_points := [];
     scheduler.no_plugin_config := [];
     scheduler.corev1_DefaultSchedulerName := "default-scheduler";
     scheduler.simontype_SimonPluginName := "Simon";
     scheduler.defaultbinder_Name := "DefaultBinder" |}.

End Demo.

(** ** Notions used in the statements *)


(** The paths [Validate] looks up, in the order of lines 277-305: the
    kubeconfig, the custom cluster, the scheduler configuration and the new
    node when they are set, and the path of every application, set or not. *)
Definition checked_paths (applier : DefaulterApply) : list string :=
  filter (fun p => negb (is_empty p))
    [simonv1.KubeConfig (Cluster applier);
     simonv1.CustomCluster (Cluster applier);
     SchedulerConfig applier;
     NewNode applier]
  ++ map simonv1.Path (AppList applier).


Section SearchNotions.
Context {World Sim Pod Node ResourceTypes Bytes : Type}.
Context {KubeClient RestConfig CompletedConfig : Type}.
Variable SIM : @Simulator World Sim Pod Node ResourceTypes KubeClient CompletedConfig.
Variable HOST : @Host World Pod Node ResourceTypes Bytes KubeClient RestConfig CompletedConfig.
Variable SORT : @Sorting Pod Node.
Variable opts : Options.t.
Variable applier : DefaulterApply.
Variable kubeClient : option KubeClient.
Variable cc : CompletedConfig.
Variable newNode : Node.
Variable resourceList : list (@ResourceInfo ResourceTypes).

(** [failed_passes i k w w' t]: from the surroundings [w], the passes for
    [i], [i+1], ..., [k-1] run one after the other, each reaches line 172
    with [success] false; they leave the surroundings [w'] and the events
    [t]. *)
Inductive failed_passes : nat -> nat -> World -> World -> list (@Event Pod) -> Prop :=
| failed_none : forall i w, failed_passes i i w w []
| failed_next : forall i k w w1 w2 t1 t2,
    round SIM HOST SORT opts applier kubeClient cc newNode resourceList i w
    = (RoundEnd false, w1, t1) ->
    failed_passes (S i) k w1 w2 t2 ->
    failed_passes i k w w2 (t1 ++ t2).



(** A piece of [Run] that leaves no event. *)
Definition silent {A : Type} (m : @M World Pod A) : Prop :=
  forall w, trace (m w) = [].

(** The entry of an application that was placed. *)
Definition placed (r : @ResourceInfo ResourceTypes) : string * bool := (Name r, true).
End SearchNotions.

(** * Properties *)

(** ** Sorting *)

Section SortFacts.
Context {A : Type}.



End SortFacts.

(** ** The search loop *)

Section Properties.
Context {World Sim Pod Node ResourceTypes Bytes : Type}.
Context {KubeClient RestConfig CompletedConfig : Type}.
Variable SIM : @Simulator World Sim Pod Node ResourceTypes KubeClient CompletedConfig.
Variable HOST : @Host World Pod Node ResourceTypes Bytes KubeClient RestConfig CompletedConfig.
Variable SORT : @Sorting Pod Node.

Ltac unfold_m := unfold bind, call, quiet, emit, ret in *.

(** Case analysis on the innermost call a hypothesis is stuck on. *)
Ltac break_in H :=
  match type of H with
  | context [match ?x with _ => _ end] =>
      lazymatch x with
      | context [match _ with _ => _ end] => fail
      | _ => destruct x eqn:?
      end
  end.

Ltac run_in H := repeat (break_in H; simpl in H).

Ltac done_in H := injection H as <- <- <-.

(** *** Counting is additive *)

Lemma count_app (p : @Event Pod -> bool) (t1 t2 : list Event) :
  count p (t1 ++ t2) = count p t1 + count p t2.
Proof. unfold count. now rewrite filter_app, length_app. Qed.

Lemma trial_sizes_app (t1 t2 : list (@Event Pod)) :
  trial_sizes (t1 ++ t2) = trial_sizes t1 ++ trial_sizes t2.
Proof.
  induction t1 as [|e t1 IH]; simpl; [reflexivity|].
  destruct e; simpl; now rewrite ?IH.
Qed.

Lemma batches_app (t1 t2 : list (@Event Pod)) :
  batches (t1 ++ t2) = batches t1 ++ batches t2.
Proof.
  induction t1 as [|e t1 IH]; simpl; [reflexivity|].
  destruct e; simpl; now rewrite ?IH.
Qed.

Lemma outcomes_app (t1 t2 : list (@Event Pod)) :
  outcomes (t1 ++ t2) = outcomes t1 ++ outcomes t2.
Proof.
  induction t1 as [|e t1 IH]; simpl; [reflexivity|].
  destruct e; simpl; now rewrite ?IH.
Qed.

Lemma persisted_app (t1 t2 : list (@Event Pod)) :
  persisted t1 = true -> persisted t2 = true -> persisted (t1 ++ t2) = true.
Proof.
  intros H1 H2. induction t1 as [|e t1 IH]; simpl; [exact H2|].
  destruct e; simpl in *; auto.
  destruct t1 as [|[] [|[] t1]]; simpl in *; try discriminate; auto.
Qed.

(** *** The loop over the applications *)



Lemma schedule_apps_quiet opts applier rl :
  forall sim s a w x w' t,
    schedule_apps SIM HOST SORT opts applier sim s a rl w = (x, w', t) ->
    count is_lifecycle t = 0 /\ trial_sizes t = []
    /\ count is_PrintCongratulations t = 0.
Proof.
  unfold count.
  induction rl as [|r rl IH]; intros sim s a w x w' t H; simpl in H; unfold_m.
  - done_in H. auto.
  - run_in H; done_in H; simpl; auto; eapply IH; eassumption.
Qed.


Lemma schedule_apps_outcomes opts applier rl :
  forall sim s a w x w' t,
    schedule_apps SIM HOST SORT opts applier sim s a rl w = (x, w', t) ->
    List.length (batches t) = List.length (outcomes t)
    /\ exists rl1 rl2,
        rl = rl1 ++ rl2
        /\ ((outcomes t = map placed rl1
             /\ match x with
                | RangeReturn _ => rl1 <> []
                | RangeEnd b _ =>
                    (rl1 = [] -> b = s /\ rl2 = [])
                    /\ (rl1 <> [] -> b = true)
                    /\ (Options.Interactive opts = false -> rl2 = [])
                end)
            \/ (exists r rl3 sim',
                   rl2 = r :: rl3
                   /\ outcomes t = map placed rl1 ++ [(Name r, false)]
                   /\ x = RangeEnd false sim')).
Proof.
  induction rl as [|r rl IH]; intros sim s a w x w' t H; simpl in H; unfold_m.
  - done_in H. split; [reflexivity|]. exists [], []. split; [reflexivity|].
    left. split; [reflexivity|]. repeat split; auto; congruence.
  - run_in H; done_in H; simpl.
    all: first
      [ (* the loop goes on *)
        match goal with
        | Hrec : schedule_apps _ _ _ _ _ _ _ _ _ _ = _ |- _ =>
            apply IH in Hrec;
            destruct Hrec as (Hlen & rl1 & rl2 & -> & Hcase);
            split; [now rewrite Hlen|];
            exists (r :: rl1), rl2; split; [reflexivity|];
            destruct Hcase as [(Hout & Hx)|(r' & rl3 & sim' & -> & Hout & ->)];
            [ left; split; [simpl; now rewrite Hout|];
              match goal with
              | |- match ?y with _ => _ end =>
                  destruct y as [?|? ?]; [discriminate|];
                  destruct Hx as (H0 & H1 & H2);
                  split; [discriminate|];
                  split; [|assumption];
                  intros _; destruct rl1; [now apply H0 | apply H1; discriminate]
              end
            | right; exists r', rl3, sim'; repeat split; simpl; now rewrite Hout ]
        end
      | (* placing failed *)
        split; [reflexivity|]; exists [], (r :: rl); split; [reflexivity|]; right;
        do 3 eexists; repeat split; reflexivity
      | (* saving failed, or the operator stopped *)
        split; [reflexivity|]; exists [r], rl; split; [reflexivity|]; left;
        split; [reflexivity|]; repeat split; solve [discriminate | congruence] ].
Qed.

Lemma last_one {A : Type} (x : A) : exists t0, [x] = t0 ++ [x].
Proof. now exists []. Qed.

Lemma last_cons {A : Type} (e x : A) (t : list A) :
  (exists t0, t = t0 ++ [x]) -> exists t0, e :: t = t0 ++ [x].
Proof. intros [t0 ->]. now exists (e :: t0). Qed.


Ltac find_last :=
  repeat first [ assumption | solve [apply last_one] | apply last_cons ].

Lemma schedule_apps_persisted opts applier rl :
  forall sim s a w x w' t,
    schedule_apps SIM HOST SORT opts applier sim s a rl w = (x, w', t) ->
    persisted t = true
    /\ (forall file e, In (CallSaveConfigMap file (Some e)) t ->
          x = RangeReturn e /\ exists t0, t = t0 ++ [CallSaveConfigMap file (Some e)])
    /\ (forall name e, In (PrintFailed name e) t -> exists sim', x = RangeEnd false sim').
Proof.
  induction rl as [|r rl IH]; intros sim s a w x w' t H; simpl in H; unfold_m.
  - done_in H. repeat split; simpl; intros; contradiction.
  - run_in H; done_in H; simpl.
    all: try match goal with
           | Hrec : schedule_apps _ _ _ _ _ _ _ _ _ _ = _ |- _ =>
               apply IH in Hrec; destruct Hrec as (Hp & Hsave & Hfail)
           end.
    all: split; [assumption || reflexivity|]; split; [intros file e' Hin|intros name e' Hin].
    all: repeat (destruct Hin as [Hin|Hin]; [try discriminate|]); try contradiction.
    all: try (injection Hin as <- <-; split; [reflexivity|]).
    all: try (eexists; reflexivity).
    all: try match goal with
           | Hin : In (CallSaveConfigMap _ _) _ |- _ =>
               destruct (Hsave _ _ Hin) as (-> & Hlast); split; [reflexivity|]
           | Hin : In (PrintFailed _ _) _ |- _ => exact (Hfail _ _ Hin)
           end.
    all: find_last.
Qed.

(** *** One pass of the outer loop *)

Section Round.
Variable opts : Options.t.
Variable applier : DefaulterApply.
Variable kubeClient : option KubeClient.
Variable cc : CompletedConfig.
Variable newNode : Node.
Variable resourceList : list (@ResourceInfo ResourceTypes).

Local Abbreviation init := (init_simulator SIM applier kubeClient cc newNode).
Local Abbreviation pass := (round SIM HOST SORT opts applier kubeClient cc newNode resourceList).
Local Abbreviation loop := (search SIM HOST SORT opts applier kubeClient cc newNode resourceList).
Local Abbreviation custom := (simonv1.CustomCluster (Cluster applier)).

Lemma init_simulator_trace i w r w' t :
  init i w = (r, w', t) ->
  match r with
  | inr _ => t = [CallNew; CallRunScheduler; CallCreateFakeCluster custom; CallAddNewNode i]
  | inl _ =>
      t = [CallNew]
      \/ t = [CallNew; CallRunScheduler; CallCreateFakeCluster custom]
      \/ t = [CallNew; CallRunScheduler; CallCreateFakeCluster custom; CallAddNewNode i]
  end.
Proof.
  intro H. unfold init_simulator in H. unfold_m.
  run_in H; done_in H; auto.
Qed.

(** A pass either returns from [init_simulator], or runs the loop over the
    applications on the instance that [init_simulator] made and then returns
    or closes the instance. *)
Lemma round_inv i w x w' t :
  pass i w = (x, w', t) ->
  (exists e t0, init i w = (inl e, w', t0) /\ x = RoundReturn e /\ t = t0)
  \/ (exists sim w1 t0 y w2 t1,
         init i w = (inr sim, w1, t0)
         /\ schedule_apps SIM HOST SORT opts applier sim false false resourceList w1
            = (y, w2, t1)
         /\ match y with
            | RangeReturn e => x = RoundReturn e /\ w' = w2 /\ t = t0 ++ t1
            | RangeEnd b sim' =>
                x = RoundEnd b /\ w' = snd (Close SIM sim' w2)
                /\ t = t0 ++ t1 ++ [CallClose]
            end).
Proof.
  intro H. unfold round in H. unfold bind at 1 in H.
  destruct (init i w) as [[[e|sim] w1] t0] eqn:Hinit.
  - left. unfold ret in H. simpl in H. done_in H. exists e, t0.
    rewrite app_nil_r. auto.
  - right. unfold bind at 1 in H.
    destruct (schedule_apps SIM HOST SORT opts applier sim false false resourceList w1)
      as [[y w2] t1] eqn:Hloop.
    exists sim, w1, t0, y, w2, t1. split; [reflexivity|]. split; [assumption|].
    destruct y as [e|b sim']; unfold_m; simpl in H.
    + done_in H. now rewrite app_nil_r.
    + destruct (Close SIM sim' w2) as [u w3] eqn:Hclose. simpl in H. done_in H.
      simpl. auto.
Qed.

Lemma count_cons (p : @Event Pod -> bool) (e : Event) (t : list Event) :
  count p (e :: t) = (if p e then 1 else 0) + count p t.
Proof. unfold count; simpl. now destruct (p e). Qed.

Lemma count_nil (p : @Event Pod -> bool) : count p [] = 0.
Proof. reflexivity. Qed.

Ltac count_up :=
  repeat (rewrite ?count_app, ?count_cons, ?count_nil, ?trial_sizes_app; simpl).

Lemma round_facts i w x w' t :
  pass i w = (x, w', t) ->
  count is_CallNew t = 1
  /\ count is_PrintCongratulations t = 0
  /\ persisted t = true
  /\ match x with
     | RoundEnd _ =>
         trial_sizes t = [i] /\ count is_CallClose t = 1
         /\ exists t1,
             t = [CallNew; CallRunScheduler; CallCreateFakeCluster custom;
                  CallAddNewNode i] ++ t1 ++ [CallClose]
             /\ count is_lifecycle t1 = 0
     | RoundReturn _ =>
         (trial_sizes t = [] \/ trial_sizes t = [i]) /\ count is_CallClose t = 0
     end.
Proof.
  intro H. apply round_inv in H.
  destruct H as [(e & t0 & Hinit & -> & ->)
                |(sim & w1 & t0 & y & w2 & t1 & Hinit & Hloop & Hy)].
  - apply init_simulator_trace in Hinit.
    destruct Hinit as [->|[->| ->]]; repeat split; auto.
  - apply init_simulator_trace in Hinit. subst t0.
    pose proof (schedule_apps_quiet _ _ _ _ _ _ _ _ _ _ Hloop) as (Hlife & Hsizes & Hcongr).
    pose proof (schedule_apps_persisted _ _ _ _ _ _ _ _ _ _ Hloop) as (Hpers & _).
    assert (Hnew : count is_CallNew t1 = 0).
    { unfold count in *. clear - Hlife.
      induction t1 as [|[] t1 IH]; simpl in *; try discriminate; auto. }
    assert (Hclose : count is_CallClose t1 = 0).
    { unfold count in *. clear - Hlife.
      induction t1 as [|[] t1 IH]; simpl in *; try discriminate; auto. }
    destruct y as [e|b sim']; [destruct Hy as (-> & -> & ->)|destruct Hy as (-> & -> & ->)].
    + count_up. rewrite Hnew, Hcongr, Hclose, Hsizes. repeat split; auto.
    + count_up. rewrite Hnew, Hcongr, Hclose, Hsizes. repeat split; auto.
      * apply persisted_app; auto.
      * exists t1. split; [reflexivity | assumption].
Qed.

(** *** The outer loop *)

Lemma search_facts n :
  forall i w x w' t,
    loop n i w = (x, w', t) ->
    count is_CallNew t <= n
    /\ persisted t = true
    /\ match x with
       | Finished =>
           count is_CallNew t = n /\ trial_sizes t = seq i n
           /\ count is_PrintCongratulations t = 0
       | Broke k =>
           i <= k < i + n
           /\ count is_CallNew t = S (k - i)
           /\ trial_sizes t = seq i (S (k - i))
           /\ exists t0, t = t0 ++ [PrintCongratulations]
                         /\ count is_PrintCongratulations t0 = 0
       | Returned _ =>
           count is_PrintCongratulations t = 0
           /\ (trial_sizes t = seq i (count is_CallNew t - 1)
               \/ trial_sizes t = seq i (count is_CallNew t))
       end.
Proof.
  induction n as [|n IH]; intros i w x w' t H; simpl in H.
  - unfold ret in H. done_in H. simpl. auto.
  - unfold bind at 1 in H.
    destruct (pass i w) as [[y w1] t1] eqn:Hpass.
    apply round_facts in Hpass. destruct Hpass as (Hnew & Hcongr & Hpers & Hy).
    destruct y as [e|[|]].
    + unfold ret in H. done_in H. destruct Hy as (Hsizes & _).
      rewrite app_nil_r, Hnew. split; [lia|]. repeat split; auto.
    + unfold_m. done_in H. destruct Hy as (Hsizes & _).
      count_up. rewrite ?Hnew, ?Hcongr, ?Hsizes. simpl.
      replace (i - i) with 0 by lia. repeat split; auto with arith; try lia.
      * apply persisted_app; auto.
      * exists t1. auto.
    + destruct (loop n (S i) w1) as [[z w2] t2] eqn:Hrest.
      done_in H. apply IH in Hrest. destruct Hrest as (Hle & Hpers2 & Hz).
      destruct Hy as (Hsizes & _).
      count_up. rewrite ?Hnew, ?Hcongr, ?Hsizes. simpl.
      split; [lia|]. split; [apply persisted_app; auto|].
      destruct z as [k| |e].
      * destruct Hz as (Hk & Hn & Hs & t0 & -> & H0).
        replace (k - i) with (S (k - S i)) by lia.
        repeat split; try lia.
        -- simpl. now rewrite Hs.
        -- exists (t1 ++ t0). rewrite app_assoc. split; [reflexivity|].
           count_up. lia.
      * destruct Hz as (Hn & Hs & H0). rewrite Hn, Hs. auto.
      * destruct Hz as (H0 & Hs). split; [assumption|].
        rewrite ?Nat.sub_0_r.
        destruct Hs as [Hs | Hs]; rewrite Hs.
        -- destruct (count is_CallNew t2) as [|c]; [right; reflexivity|left].
           simpl. now rewrite Nat.sub_0_r.
        -- right. reflexivity.
Qed.

Local Abbreviation failed :=
  (failed_passes SIM HOST SORT opts applier kubeClient cc newNode resourceList).

Lemma failed_passes_le i k w w1 t0 : failed i k w w1 t0 -> i <= k.
Proof. induction 1; lia. Qed.

Lemma search_broke_iff n :
  forall i w k w' t,
    loop n i w = (Broke k, w', t)
    <-> k < i + n
        /\ exists w1 t0 t1,
            failed i k w w1 t0
            /\ pass k w1 = (RoundEnd true, w', t1)
            /\ t = t0 ++ t1 ++ [PrintCongratulations].
Proof.
  induction n as [|n IH]; intros i w k w' t.
  - split.
    + intro H. discriminate H.
    + intros [Hk (w1 & t0 & t1 & Hf & _)]. apply failed_passes_le in Hf. lia.
  - simpl. unfold bind at 1.
    destruct (pass i w) as [[y w1] t1] eqn:Hpass.
    destruct y as [e|[|]].
    + split; [intro H; discriminate H|].
      intros [Hk (w2 & t0 & t2 & Hf & Hp & _)].
      inversion Hf; subst; congruence.
    + unfold_m. split.
      * intro H. injection H as <- <- <-. split; [lia|].
        exists w, [], t1. split; [constructor|]. split; [assumption|reflexivity].
      * intros [Hk (w2 & t0 & t2 & Hf & Hp & ->)].
        inversion Hf; subst; [|congruence].
        rewrite Hp in Hpass. injection Hpass as <- <-. reflexivity.
    + destruct (loop n (S i) w1) as [[z w2] t2] eqn:Hrest. split.
      * intro H. injection H as -> <- <-.
        apply IH in Hrest. destruct Hrest as [Hk (w3 & t0 & t3 & Hf & Hp & ->)].
        split; [lia|]. exists w3, (t1 ++ t0), t3.
        split; [econstructor; eassumption|]. split; [assumption|].
        now rewrite app_assoc.
      * intros [Hk (w3 & t0 & t3 & Hf & Hp & ->)].
        inversion Hf as [|i0 k0 w0 wa wb ta tb Hpa Hfb]; subst; [congruence|].
        rewrite Hpa in Hpass. injection Hpass as -> ->.
        assert (Hz : loop n (S i) w1 = (Broke k, w', tb ++ t3 ++ [PrintCongratulations])).
        { apply IH. split.
          - apply failed_passes_le in Hfb. lia.
          - eauto 6. }
        rewrite Hz in Hrest. injection Hrest as <- <- <-.
        now rewrite app_assoc.
Qed.

Lemma failed_passes_finished i k w w' t :
  failed i k w w' t -> forall n, k = i + n -> loop n i w = (Finished, w', t).
Proof.
  induction 1 as [i w|i k w w1 w2 t1 t2 Hpass Hrest IH]; intros n Hk.
  - assert (n = 0) by lia. subst n. reflexivity.
  - apply failed_passes_le in Hrest.
    destruct n as [|n]; [lia|].
    simpl. unfold bind at 1. rewrite Hpass.
    rewrite (IH n) by lia. reflexivity.
Qed.

Lemma search_finished_iff n :
  forall i w w' t,
    loop n i w = (Finished, w', t) <-> failed i (i + n) w w' t.
Proof.
  intros i w w' t. split; [|intro H; now apply (failed_passes_finished _ _ _ _ _ H)].
  revert i w w' t. induction n as [|n IH]; intros i w w' t H; simpl in H.
  - unfold ret in H. injection H as <- <-. rewrite Nat.add_0_r. constructor.
  - unfold bind at 1 in H.
    destruct (pass i w) as [[y w1] t1] eqn:Hpass.
    destruct y as [e|[|]]; unfold_m; try discriminate H.
    destruct (loop n (S i) w1) as [[z w2] t2] eqn:Hrest.
    injection H as -> <- <-. apply IH in Hrest.
    replace (i + S n) with (S i + n) by lia.
    econstructor; eassumption.
Qed.


Lemma init_simulator_silent i w r w' t :
  init i w = (r, w', t) ->
  outcomes t = [] /\ batches t = []
  /\ count is_CallGenerateDaemonPods t = 0
  /\ (forall file e, ~ In (CallSaveConfigMap file e) t)
  /\ (forall name e, ~ In (PrintFailed name e) t).
Proof.
  intro H. apply init_simulator_trace in H.
  assert (Ht : exists n, t = firstn n [CallNew; CallRunScheduler;
                                       CallCreateFakeCluster custom; CallAddNewNode i]).
  { destruct r; [destruct H as [->|[->| ->]]|subst t];
      [now exists 1|now exists 3|now exists 4|now exists 4]. }
  destruct Ht as [n ->].
  do 5 (destruct n as [|n]; simpl;
        [repeat split; auto; intros ? ? Hin; simpl in Hin;
         repeat (destruct Hin as [Hin|Hin]; [discriminate|]); contradiction|]).
  repeat split; auto; intros ? ? Hin; simpl in Hin;
    repeat (destruct Hin as [Hin|Hin]; [discriminate|]); contradiction.
Qed.

Lemma placed_no_failure (rl : list (@ResourceInfo ResourceTypes)) name l1 l2 :
  map placed rl <> l1 ++ (name, false) :: l2.
Proof.
  revert l1; induction rl as [|r rl IH]; intros [|p l1] E; simpl in E;
    try discriminate.
  injection E as _ E. exact (IH _ E).
Qed.

Lemma placed_then_failure (rl : list (@ResourceInfo ResourceTypes)) n name l1 l2 :
  map placed rl ++ [(n, false)] = l1 ++ (name, false) :: l2 ->
  l1 = map placed rl /\ name = n /\ l2 = [].
Proof.
  revert l1; induction rl as [|r rl IH]; intros [|p l1] E; simpl in E.
  - injection E as -> <-. auto.
  - injection E as _ E. destruct l1; discriminate.
  - unfold placed in E. discriminate E.
  - injection E as <- E. apply IH in E. destruct E as (-> & -> & ->). auto.
Qed.

Lemma round_success_nonempty i w w' t :
  pass i w = (RoundEnd true, w', t) -> resourceList <> [].
Proof.
  intro H. apply round_inv in H.
  destruct H as [(e & t0 & _ & Hx & _)
                |(sim & w1 & t0 & y & w2 & t1 & _ & Hloop & Hy)]; [discriminate|].
  apply schedule_apps_outcomes in Hloop.
  destruct Hloop as (_ & rl1 & rl2 & -> & Hcase).
  destruct Hcase as [(_ & Hx)|(r & rl3 & sim' & _ & _ & ->)].
  - destruct y as [e|b sim']; [destruct Hy; discriminate|].
    destruct Hy as (Hb & _). injection Hb as <-.
    destruct Hx as (H0 & _). destruct rl1; [|discriminate].
    destruct (H0 eq_refl). discriminate.
  - destruct Hy. discriminate.
Qed.

(** C2 (as amended).  Every application processed in a pass is handed to
    [SchedulePods] once and reported once.  Without the interactive option a
    pass ends with [success] true only if every application of the list was
    placed, in list order; with it, only if a non-empty first part of the
    list was.  In every pass the first application that fails to place is
    the last one processed, and the pass ends with [success] false. *)
Theorem C2_round_outcome (i : nat) (w : World) (x : RoundExit) (w' : World)
  (t : list Event) :
  pass i w = (x, w', t) ->
  List.length (batches t) = List.length (outcomes t)
  /\ (x = RoundEnd true ->
      exists rl1 rl2,
        resourceList = rl1 ++ rl2 /\ rl1 <> [] /\ outcomes t = map placed rl1
        /\ (Options.Interactive opts = false -> rl2 = []))
  /\ (forall name l1 l2,
         outcomes t = l1 ++ (name, false) :: l2 ->
         l2 = [] /\ x = RoundEnd false
         /\ exists rl1 r rl2,
             resourceList = rl1 ++ r :: rl2 /\ name = Name r
             /\ l1 = map placed rl1).
Proof.
  intro H. apply round_inv in H.
  destruct H as [(e & t0 & Hinit & -> & ->)
                |(sim & w1 & t0 & y & w2 & t1 & Hinit & Hloop & Hy)].
  - apply init_simulator_silent in Hinit. destruct Hinit as (Ho & Hb & _).
    rewrite Ho, Hb. split; [reflexivity|]. split; [discriminate|].
    intros name [|] l2 E; discriminate E.
  - apply init_simulator_silent in Hinit. destruct Hinit as (Ho & Hb & _).
    apply schedule_apps_outcomes in Hloop.
    destruct Hloop as (Hlen & rl1 & rl2 & Hrl & Hcase).
    assert (Ht : outcomes t = outcomes t1 /\ batches t = batches t1).
    { destruct y; [destruct Hy as (_ & _ & ->)|destruct Hy as (_ & _ & ->)];
        rewrite ?outcomes_app, ?batches_app, Ho, Hb; simpl;
        now rewrite ?app_nil_r. }
    destruct Ht as (-> & ->). split; [assumption|].
    destruct Hcase as [(Hout & Hx)|(r & rl3 & sim' & -> & Hout & ->)].
    + split.
      * intros ->. destruct y as [e|b sim']; [destruct Hy; discriminate|].
        destruct Hy as (Hb' & _). injection Hb' as <-.
        destruct Hx as (H0 & H1 & H2).
        exists rl1, rl2. repeat split; auto.
        intros ->. destruct (H0 eq_refl). discriminate.
      * intros name l1 l2 E. rewrite Hout in E.
        exfalso. exact (placed_no_failure _ _ _ _ E).
    + destruct Hy as (-> & _). split; [discriminate|].
      intros name l1 l2 E. rewrite Hout in E.
      apply placed_then_failure in E. destruct E as (-> & -> & ->).
      repeat split. exists rl1, r, rl3. auto.
Qed.

Local Abbreviation answer :=
  (get_result SIM HOST SORT opts applier kubeClient cc newNode resourceList).

Lemma get_result_loop w :
  answer w
  = (match result (loop 100 0 w) with
     | Returned err => Some err
     | Broke _ | Finished => None
     end,
     snd (fst (loop 100 0 w)), trace (loop 100 0 w)).
Proof.
  unfold get_result, bind. destruct (loop 100 0 w) as [[x w1] t1].
  unfold result, trace; simpl.
  destruct x; unfold ret; now rewrite app_nil_r.
Qed.

(** C3 (as amended).  The loop is left by its condition exactly when the
    passes for all 100 sizes end with [success] false.  What the caller of
    the search gets then is [nil], after exactly 100 simulators and with no
    success message; after a success it is [nil] as well, with the success
    message printed once.  Only a [return err] inside a pass gives the caller
    an error. *)
Theorem C3_exhausted_returns_nil (w : World) :
  (result (loop 100 0 w) = Finished <-> exists w' t, failed 0 100 w w' t)
  /\ match result (loop 100 0 w) with
     | Finished =>
         result (answer w) = None
         /\ count is_CallNew (trace (answer w)) = 100
         /\ count is_PrintCongratulations (trace (answer w)) = 0
     | Broke _ =>
         result (answer w) = None
         /\ count is_PrintCongratulations (trace (answer w)) = 1
     | Returned err =>
         result (answer w) = Some err
         /\ count is_PrintCongratulations (trace (answer w)) = 0
     end.
Proof.
  split.
  - destruct (loop 100 0 w) as [[x w1] t1] eqn:H. unfold result; simpl. split.
    + intros ->. exists w1, t1. now apply (search_finished_iff 100 0).
    + intros (w' & t & Hf). apply (search_finished_iff 100 0) in Hf.
      rewrite Hf in H. now injection H as <- _ _.
  - rewrite get_result_loop.
    destruct (loop 100 0 w) as [[x w1] t1] eqn:H.
    apply search_facts in H. destruct H as (_ & _ & Hx).
    unfold result, trace; simpl.
    destruct x as [k| |e].
    + destruct Hx as (_ & _ & _ & t0 & -> & H0). split; [reflexivity|].
      count_up. lia.
    + destruct Hx as (Hn & _ & H0). auto.
    + destruct Hx as (H0 & _). auto.
Qed.





(** *** Passes that do not look at the surroundings *)









Lemma search_starts n i w : 1 <= count is_CallNew (trace (loop (S n) i w)).
Proof.
  simpl. unfold bind at 1.
  destruct (pass i w) as [[y w1] t1] eqn:Hpass.
  apply round_facts in Hpass. destruct Hpass as (Hnew & _).
  destruct (match y with
            | RoundReturn err => ret (Returned err)
            | RoundEnd true => bind (emit PrintCongratulations) (fun _ => ret (Broke i))
            | RoundEnd false => loop n (S i)
            end w1) as [[z w2] t2].
  unfold trace; simpl. rewrite count_app. lia.
Qed.

(** C7 (as amended).  The bound is the constant 100 of line 105, whatever
    the options: a search makes at least one simulator and at most 100, and
    exactly 100 when it is left by its condition. *)
Theorem C7_bound_is_100 (w : World) :
  1 <= count is_CallNew (trace (answer w)) <= 100
  /\ (result (loop 100 0 w) = Finished ->
      count is_CallNew (trace (answer w)) = 100).
Proof.
  rewrite get_result_loop.
  pose proof (search_starts 99 0 w) as Hs.
  destruct (loop 100 0 w) as [[x w1] t1] eqn:H. apply search_facts in H.
  unfold result, trace in *; simpl in *. destruct H as (Hle & _ & Hx).
  split; [lia|]. intros ->. tauto.
Qed.


(** *** Properties of every trace of a search *)

(** What holds of the empty trace, of each event around the loop over the
    applications, of the traces of that loop, and of the concatenation of two
    traces it holds of, holds of the trace of every pass and of every
    search. *)
Lemma round_trace_ind (P : list (@Event Pod) -> Prop) :
  P [] ->
  (forall t1 t2, P t1 -> P t2 -> P (t1 ++ t2)) ->
  (forall e, is_lifecycle e = true -> P [e]) ->
  (forall sim w x w' t,
      schedule_apps SIM HOST SORT opts applier sim false false resourceList w
      = (x, w', t) -> P t) ->
  forall i w x w' t, pass i w = (x, w', t) -> P t.
Proof.
  intros Hnil Happ Hlife Hloop i w x w' t H. apply round_inv in H.
  assert (Hinit : forall r w0 w1 t0, init i w0 = (r, w1, t0) -> P t0).
  { intros r w0 w1 t0 Hi. apply init_simulator_trace in Hi.
    assert (H1 : P [CallNew]) by now apply Hlife.
    assert (H3 : P [CallNew; CallRunScheduler; CallCreateFakeCluster custom]).
    { apply (Happ [CallNew] [CallRunScheduler; CallCreateFakeCluster custom]);
        [assumption|].
      apply (Happ [CallRunScheduler] [CallCreateFakeCluster custom]);
        now apply Hlife. }
    assert (H4 : P [CallNew; CallRunScheduler; CallCreateFakeCluster custom;
                    CallAddNewNode i]).
    { apply (Happ [CallNew; CallRunScheduler; CallCreateFakeCluster custom]
               [CallAddNewNode i]); [assumption|now apply Hlife]. }
    destruct r; [destruct Hi as [->|[->| ->]]|subst t0]; assumption. }
  destruct H as [(e & t0 & Hi & _ & ->)
                |(sim & w1 & t0 & y & w2 & t1 & Hi & Hl & Hy)].
  - eapply Hinit; eassumption.
  - apply Hinit in Hi. apply Hloop in Hl.
    destruct y; destruct Hy as (_ & _ & ->); repeat apply Happ; auto.
Qed.

Lemma search_trace_ind (P : list (@Event Pod) -> Prop) :
  P [] ->
  (forall t1 t2, P t1 -> P t2 -> P (t1 ++ t2)) ->
  (forall e, is_lifecycle e = true -> P [e]) ->
  P [PrintCongratulations] ->
  (forall sim w x w' t,
      schedule_apps SIM HOST SORT opts applier sim false false resourceList w
      = (x, w', t) -> P t) ->
  forall n i w x w' t, loop n i w = (x, w', t) -> P t.
Proof.
  intros Hnil Happ Hlife Hcongr Hloop.
  induction n as [|n IH]; intros i w x w' t H; simpl in H.
  - unfold ret in H. now injection H as _ _ <-.
  - unfold bind at 1 in H.
    destruct (pass i w) as [[y w1] t1] eqn:Hpass.
    apply (round_trace_ind P Hnil Happ Hlife Hloop) in Hpass.
    destruct y as [e|[|]].
    + unfold ret in H. injection H as _ _ <-. now rewrite app_nil_r.
    + unfold_m. injection H as _ _ <-. now apply Happ.
    + destruct (loop n (S i) w1) as [[z w2] t2] eqn:Hrest.
      injection H as _ _ <-. apply Happ; [assumption|]. eapply IH; eassumption.
Qed.

Lemma schedule_apps_confirms rl :
  forall sim s a w x w' t,
    schedule_apps SIM HOST SORT opts applier sim s a rl w = (x, w', t) ->
    count is_CallConfirm t
    = if Options.Interactive opts then count is_saved t else 0.
Proof.
  unfold count.
  induction rl as [|r rl IH]; intros sim s a w x w' t H; simpl in H; unfold_m.
  - done_in H. now destruct (Options.Interactive opts).
  - run_in H; done_in H; simpl;
      try match goal with
        | Hrec : schedule_apps _ _ _ _ _ _ _ _ _ _ = _ |- _ =>
            apply IH in Hrec; rewrite Hrec
        end;
      try reflexivity; now destruct (Options.Interactive opts).
Qed.

(** X10.  The operator is asked only with the interactive option, and then once
    after every application whose report was saved, over the whole search. *)
Theorem search_confirms (w : World) :
  count is_CallConfirm (trace (loop 100 0 w))
  = if Options.Interactive opts
    then count is_saved (trace (loop 100 0 w))
    else 0.
Proof.
  destruct (loop 100 0 w) as [[x w'] t] eqn:H. unfold trace; simpl.
  revert H.
  apply (search_trace_ind
           (fun t => count is_CallConfirm t
                     = if Options.Interactive opts then count is_saved t else 0)).
  - now destruct (Options.Interactive opts).
  - intros t1 t2 H1 H2. rewrite !count_app, H1, H2.
    now destruct (Options.Interactive opts).
  - intros [] He; try discriminate He; now destruct (Options.Interactive opts).
  - now destruct (Options.Interactive opts).
  - intros sim w0 y w1 t0. apply schedule_apps_confirms.
Qed.

Lemma schedule_apps_discipline rl :
  forall sim s a w x w' t,
    schedule_apps SIM HOST SORT opts applier sim s a rl w = (x, w', t) ->
    count is_CallGeneratePods t = List.length (batches t)
    /\ List.length (batches t) = List.length (outcomes t)
    /\ Forall (fun o => In (fst o) (map Name rl)) (outcomes t).
Proof.
  unfold count.
  induction rl as [|r rl IH]; intros sim s a w x w' t H; simpl in H; unfold_m.
  - done_in H. simpl. auto.
  - run_in H; done_in H; simpl;
      first
        [ match goal with
          | Hrec : schedule_apps _ _ _ _ _ _ _ _ _ _ = _ |- _ =>
              apply IH in Hrec; destruct Hrec as (Hg & Hb & Hn);
              split; [now rewrite Hg|]; split; [now rewrite Hb|];
              constructor; [simpl; auto|];
              eapply Forall_impl; [|exact Hn]; simpl; auto
          end
        | split; [reflexivity|]; split; [reflexivity|];
          constructor; [simpl; auto|constructor] ].
Qed.

(** X12.  Over the whole search: every call of [SchedulePods] comes with one call
    of [GenerateValidPodsFromResources] and one line of report, "Success!" or
    the error, and every line of report names an application of the list. *)
Theorem search_reports_each_batch (w : World) :
  count is_CallGeneratePods (trace (loop 100 0 w))
  = List.length (batches (trace (loop 100 0 w)))
  /\ List.length (batches (trace (loop 100 0 w)))
     = List.length (outcomes (trace (loop 100 0 w)))
  /\ Forall (fun o => In (fst o) (map Name resourceList))
       (outcomes (trace (loop 100 0 w))).
Proof.
  destruct (loop 100 0 w) as [[x w'] t] eqn:H. unfold trace; simpl.
  revert H.
  apply (search_trace_ind
           (fun t => count is_CallGeneratePods t = List.length (batches t)
                     /\ List.length (batches t) = List.length (outcomes t)
                     /\ Forall (fun o => In (fst o) (map Name resourceList))
                          (outcomes t))).
  - repeat split. constructor.
  - intros t1 t2 (Hg1 & Hb1 & Hn1) (Hg2 & Hb2 & Hn2).
    rewrite count_app, batches_app, outcomes_app, !length_app.
    repeat split; try congruence. now apply Forall_app.
  - intros [] He; try discriminate He; repeat split; constructor.
  - repeat split. constructor.
  - intros sim w0 y w1 t0. apply schedule_apps_discipline.
Qed.

Lemma search_closes n :
  forall i w x w' t,
    loop n i w = (x, w', t) ->
    match x with
    | Returned _ => S (count is_CallClose t) = count is_CallNew t
    | Broke _ | Finished => count is_CallClose t = count is_CallNew t
    end.
Proof.
  induction n as [|n IH]; intros i w x w' t H; simpl in H.
  - unfold ret in H. done_in H. reflexivity.
  - unfold bind at 1 in H.
    destruct (pass i w) as [[y w1] t1] eqn:Hpass.
    apply round_facts in Hpass. destruct Hpass as (Hnew & _ & _ & Hy).
    destruct y as [e|[|]].
    + unfold ret in H. done_in H. rewrite app_nil_r. destruct Hy as (_ & ->). lia.
    + unfold_m. done_in H. destruct Hy as (_ & Hc & _). count_up. lia.
    + destruct (loop n (S i) w1) as [[z w2] t2] eqn:Hrest. done_in H.
      apply IH in Hrest. destruct Hy as (_ & Hc & _).
      rewrite !count_app. destruct z; lia.
Qed.

(** X11.  A search that ends by [break] or by its condition has called
    [Close] once for every call of [simulator.New]; a search that ends by a
    [return err] inside a pass has one call of [simulator.New] without its
    [Close], that of the pass it returned from. *)
Theorem search_closes_simulators (w : World) :
  match result (loop 100 0 w) with
  | Returned _ =>
      S (count is_CallClose (trace (loop 100 0 w)))
      = count is_CallNew (trace (loop 100 0 w))
  | Broke _ | Finished =>
      count is_CallClose (trace (loop 100 0 w))
      = count is_CallNew (trace (loop 100 0 w))
  end.
Proof.
  destruct (loop 100 0 w) as [[x w'] t] eqn:H. unfold result, trace; simpl.
  exact (search_closes _ _ _ _ _ _ H).
Qed.

Lemma schedule_apps_declined rl :
  forall sim s a w x w' t prompt,
    schedule_apps SIM HOST SORT opts applier sim s a rl w = (x, w', t) ->
    In (CallConfirm prompt false) t ->
    (exists sim', x = RangeEnd true sim')
    /\ exists t0, t = t0 ++ [CallConfirm prompt false].
Proof.
  induction rl as [|r rl IH]; intros sim s a w x w' t prompt H Hin;
    simpl in H; unfold_m.
  - done_in H. contradiction.
  - run_in H; done_in H; simpl in Hin;
      repeat (destruct Hin as [Hin|Hin]; [try discriminate|]);
      try contradiction;
      try (injection Hin as <-; split; [eexists; reflexivity|find_last]);
      match goal with
      | Hrec : schedule_apps _ _ _ _ _ _ _ _ _ _ = _ |- _ =>
          destruct (IH _ _ _ _ _ _ _ _ Hrec Hin) as (Hx & Hlast);
          split; [assumption|find_last]
      end.
Qed.

Lemma round_declined i w x w' t prompt :
  pass i w = (x, w', t) ->
  In (CallConfirm prompt false) t ->
  x = RoundEnd true
  /\ exists t0, t = t0 ++ [CallConfirm prompt false; CallClose].
Proof.
  intros H Hin. apply round_inv in H.
  destruct H as [(e & t0 & Hinit & -> & ->)
                |(sim & w1 & t0 & y & w2 & t1 & Hinit & Hloop & Hy)];
    apply init_simulator_trace in Hinit.
  - exfalso. destruct Hinit as [->|[->| ->]]; simpl in Hin;
      repeat (destruct Hin as [Hin|Hin]; [discriminate|]); contradiction.
  - subst t0.
    assert (Hin1 : In (CallConfirm prompt false) t1).
    { destruct y; destruct Hy as (_ & _ & ->); simpl in Hin;
        repeat (destruct Hin as [Hin|Hin]; [discriminate|]);
        rewrite ?in_app_iff in Hin; auto.
      destruct Hin as [Hin|[Hin|[]]]; [assumption|discriminate]. }
    destruct (schedule_apps_declined _ _ _ _ _ _ _ _ _ Hloop Hin1)
      as ((sim' & ->) & t0 & ->).
    destruct Hy as (-> & _ & ->). split; [reflexivity|].
    exists ([CallNew; CallRunScheduler; CallCreateFakeCluster custom;
             CallAddNewNode i] ++ t0).
    now rewrite <- !app_assoc.
Qed.

Lemma search_declined n :
  forall i w x w' t prompt,
    loop n i w = (x, w', t) ->
    In (CallConfirm prompt false) t ->
    (exists k, x = Broke k)
    /\ exists t0,
        t = t0 ++ [CallConfirm prompt false; CallClose; PrintCongratulations].
Proof.
  induction n as [|n IH]; intros i w x w' t prompt H Hin; simpl in H.
  - unfold ret in H. done_in H. contradiction.
  - unfold bind at 1 in H.
    destruct (pass i w) as [[y w1] t1] eqn:Hpass.
    pose proof (round_declined _ _ _ _ _ prompt Hpass) as Hd.
    destruct y as [e|[|]].
    + unfold ret in H. done_in H. rewrite app_nil_r in Hin.
      destruct (Hd Hin) as (E & _). discriminate E.
    + unfold_m. done_in H.
      rewrite in_app_iff in Hin. destruct Hin as [Hin|[Hin|[]]]; [|discriminate].
      destruct (Hd Hin) as (_ & t0 & ->). split; [eexists; reflexivity|].
      exists t0. now rewrite <- app_assoc.
    + destruct (loop n (S i) w1) as [[z w2] t2] eqn:Hrest. done_in H.
      rewrite in_app_iff in Hin. destruct Hin as [Hin|Hin].
      * destruct (Hd Hin) as (E & _). discriminate E.
      * destruct (IH _ _ _ _ _ _ Hrest Hin) as (Hk & t0 & ->).
        split; [assumption|]. exists (t1 ++ t0). now rewrite app_assoc.
Qed.

(** X9.  The operator's "no" ends the search as a success: it is followed by
    the closing of the simulator and by the success message, and by nothing
    else, and [Run] returns [nil]. *)
Theorem search_declined_is_success (w : World) (x : LoopExit) (w' : World)
  (t : list Event) (prompt : string) :
  loop 100 0 w = (x, w', t) ->
  In (CallConfirm prompt false) t ->
  (exists k, x = Broke k)
  /\ result (answer w) = None
  /\ exists t0,
      t = t0 ++ [CallConfirm prompt false; CallClose; PrintCongratulations].
Proof.
  intros H Hin. destruct (search_declined _ _ _ _ _ _ _ H Hin) as ((k & ->) & Hlast).
  split; [now exists k|]. split; [|assumption].
  rewrite get_result_loop, H. reflexivity.
Qed.

(** *** The answer of a search without the interactive option *)

Lemma failures_placed (rl : list (@ResourceInfo ResourceTypes)) :
  filter (fun o : string * bool => negb (snd o)) (map placed rl) = [].
Proof. induction rl; simpl; auto. Qed.

Lemma round_failures i w y w' t :
  resourceList <> [] ->
  pass i w = (y, w', t) ->
  List.length (failures t) = match y with RoundEnd false => 1 | _ => 0 end.
Proof.
  intros Hne H. unfold failures.
  apply round_inv in H.
  destruct H as [(e & t0 & Hinit & -> & ->)
                |(sim & w1 & t0 & z & w2 & t1 & Hinit & Hloop & Hz)];
    apply init_simulator_silent in Hinit; destruct Hinit as (Ho & _).
  - now rewrite Ho.
  - apply schedule_apps_outcomes in Hloop.
    destruct Hloop as (_ & rl1 & rl2 & Hrl & Hcase).
    assert (Ht : outcomes t = outcomes t1).
    { destruct z; destruct Hz as (_ & _ & ->);
        rewrite ?outcomes_app, Ho; simpl; now rewrite ?app_nil_r. }
    rewrite Ht.
    destruct Hcase as [(Hout & Hx)|(r & rl3 & sim' & -> & Hout & ->)].
    + rewrite Hout, failures_placed.
      destruct z as [e|b sim']; destruct Hz as (-> & _); [reflexivity|].
      destruct Hx as (H0 & H1 & _). destruct rl1 as [|r rl1].
      * destruct (H0 eq_refl) as (_ & ->). now destruct Hne.
      * now rewrite (H1 ltac:(discriminate)).
    + destruct Hz as (-> & _).
      now rewrite Hout, filter_app, failures_placed.
Qed.

Lemma round_success_all i w w' t :
  Options.Interactive opts = false ->
  pass i w = (RoundEnd true, w', t) ->
  outcomes t = map placed resourceList /\ trial_sizes t = [i].
Proof.
  intros Hni H.
  pose proof (round_facts _ _ _ _ _ H) as (_ & _ & _ & Hs & _).
  split; [|assumption].
  apply round_inv in H.
  destruct H as [(e & t0 & _ & Hx & _)
                |(sim & w1 & t0 & z & w2 & t1 & Hinit & Hloop & Hz)];
    [discriminate|].
  apply init_simulator_silent in Hinit. destruct Hinit as (Ho & _).
  apply schedule_apps_outcomes in Hloop.
  destruct Hloop as (_ & rl1 & rl2 & Hrl & Hcase).
  destruct z as [e|b sim']; destruct Hz as (Hb & _ & ->); [discriminate|].
  injection Hb as <-.
  rewrite !outcomes_app, Ho. simpl. rewrite app_nil_r.
  destruct Hcase as [(Hout & _ & _ & H2)|(r & rl3 & sim'' & _ & _ & E)];
    [|discriminate].
  rewrite Hout, Hrl, (H2 Hni). now rewrite app_nil_r.
Qed.

Lemma failed_passes_failures i k w w1 t0 :
  resourceList <> [] ->
  failed i k w w1 t0 ->
  List.length (failures t0) = k - i /\ trial_sizes t0 = seq i (k - i).
Proof.
  intro Hne. induction 1 as [i w|i k w w1 w2 t1 t2 Hpass Hrest IH].
  - rewrite Nat.sub_diag. auto.
  - pose proof (failed_passes_le _ _ _ _ _ Hrest) as Hle.
    destruct IH as (Hf & Hs).
    pose proof (round_failures _ _ _ _ _ Hne Hpass) as Hf1.
    pose proof (round_facts _ _ _ _ _ Hpass) as (_ & _ & _ & Hs1 & _).
    unfold failures in *.
    rewrite outcomes_app, filter_app, length_app, trial_sizes_app, Hf, Hf1, Hs, Hs1.
    replace (k - i) with (S (k - S i)) by lia. auto.
Qed.

(** X8.  Without the interactive option, when the search is left by [break] at
    [k]: the last pass, the one with [k] new nodes, placed every application
    of the list, in list order, and each of the [k] passes before it, one
    for each smaller number of new nodes, reported exactly one application
    that could not be placed. *)
Theorem search_answer_places_all (w : World) (k : nat) (w' : World)
  (t : list Event) :
  Options.Interactive opts = false ->
  loop 100 0 w = (Broke k, w', t) ->
  exists t0 t1,
    t = t0 ++ t1 ++ [PrintCongratulations]
    /\ outcomes t1 = map placed resourceList
    /\ trial_sizes t1 = [k]
    /\ List.length (failures t0) = k
    /\ trial_sizes t0 = seq 0 k.
Proof.
  intros Hni H. apply search_broke_iff in H.
  destruct H as (_ & w1 & t0 & t1 & Hf & Hp & ->).
  exists t0, t1. split; [reflexivity|].
  pose proof (round_success_nonempty _ _ _ _ Hp) as Hne.
  destruct (round_success_all _ _ _ _ Hni Hp) as (Ho & Hs).
  destruct (failed_passes_failures _ _ _ _ _ Hne Hf) as (Hfl & Hsz).
  rewrite Nat.sub_0_r in *. auto.
Qed.

End Round.

(** C6 (as amended).  With no application the flag [success] of line 127 is never set:
    no pass ends as a success, the loop is never left by [break], the success
    message is not printed, and a search that no [return err] cuts short
    makes all 100 simulators. *)
Theorem C6_empty_list_never_succeeds (opts : Options.t) (applier : DefaulterApply)
  (kubeClient : option KubeClient) (cc : CompletedConfig) (newNode : Node)
  (w : World) :
  (forall i wi,
      result (round SIM HOST SORT opts applier kubeClient cc newNode [] i wi)
      <> RoundEnd true)
  /\ (forall k,
         result (search SIM HOST SORT opts applier kubeClient cc newNode [] 100 0 w)
         <> Broke k)
  /\ count is_PrintCongratulations
       (trace (get_result SIM HOST SORT opts applier kubeClient cc newNode [] w)) = 0
  /\ (result (search SIM HOST SORT opts applier kubeClient cc newNode [] 100 0 w)
      = Finished ->
      count is_CallNew
        (trace (get_result SIM HOST SORT opts applier kubeClient cc newNode [] w))
      = 100).
Proof.
  assert (Hpass : forall i wi,
             result (round SIM HOST SORT opts applier kubeClient cc newNode [] i wi)
             <> RoundEnd true).
  { intros i wi E.
    destruct (round SIM HOST SORT opts applier kubeClient cc newNode [] i wi)
      as [[x w1] t1] eqn:H.
    unfold result in E; simpl in E; subst x.
    now apply round_success_nonempty in H. }
  assert (Hbroke : forall k,
             result (search SIM HOST SORT opts applier kubeClient cc newNode [] 100 0 w)
             <> Broke k).
  { intros k E.
    destruct (search SIM HOST SORT opts applier kubeClient cc newNode [] 100 0 w)
      as [[x w1] t1] eqn:H.
    unfold result in E; simpl in E; subst x.
    apply search_broke_iff in H. destruct H as (_ & w2 & t0 & t2 & _ & Hp & _).
    apply (Hpass k w2). now rewrite Hp. }
  split; [assumption|]. split; [assumption|].
  rewrite get_result_loop.
  destruct (search SIM HOST SORT opts applier kubeClient cc newNode [] 100 0 w)
    as [[x w1] t1] eqn:H.
  pose proof (search_facts _ _ _ _ _ _ _ _ _ _ _ _ H) as (_ & _ & Hx).
  unfold result, trace in *; simpl in *.
  destruct x as [k| |e].
  - exfalso. exact (Hbroke k eq_refl).
  - split; [tauto|]. intros _. tauto.
  - split; [tauto|]. discriminate.
Qed.


(** *** [Validate] and the start of [Run] *)

Lemma both_or_neither_spec (c : simonv1.Cluster) :
  both_or_neither c = true
  <-> (simonv1.KubeConfig c = ""%string /\ simonv1.CustomCluster c = ""%string)
      \/ (simonv1.KubeConfig c <> ""%string /\ simonv1.CustomCluster c <> ""%string).
Proof.
  unfold both_or_neither.
  destruct (simonv1.KubeConfig c), (simonv1.CustomCluster c); simpl;
    split; intro H; try discriminate; try reflexivity; auto;
    try (right; split; discriminate);
    destruct H as [[H1 H2]|[H1 H2]]; congruence.
Qed.

Lemma silent_ret {A : Type} (a : A) : silent (@ret World Pod A a).
Proof. intro w. reflexivity. Qed.

Lemma silent_quiet {A : Type} (f : @IO World A) : silent (@quiet World Pod A f).
Proof. intro w. unfold quiet, trace. now destruct (f w). Qed.

Lemma silent_bind {A B : Type} (m : @M World Pod A) (k : A -> @M World Pod B) :
  silent m -> (forall a, silent (k a)) -> silent (bind m k).
Proof.
  intros Hm Hk w. specialize (Hm w). unfold bind, trace in *.
  destruct (m w) as [[a w1] t1]. specialize (Hk a w1). unfold trace in Hk.
  destruct (k a w1) as [[b w2] t2]. simpl in *. now subst.
Qed.

Ltac silent_step :=
  first
    [ apply silent_ret
    | apply silent_quiet
    | apply silent_bind; [|intro]
    | match goal with
      | |- silent (match ?x with _ => _ end) => destruct x
      end ].

Lemma ParseArgsAndConfigFile_silent applier opts :
  silent (ParseArgsAndConfigFile HOST applier opts).
Proof. unfold ParseArgsAndConfigFile. repeat silent_step. Qed.

Lemma stat_if_set_silent path what : silent (stat_if_set HOST path what).
Proof. unfold stat_if_set. repeat silent_step. Qed.

Lemma stat_apps_silent apps : silent (stat_apps HOST apps).
Proof. induction apps; simpl; repeat first [assumption | silent_step]. Qed.

Lemma Validate_silent applier : silent (Validate HOST applier).
Proof.
  unfold Validate.
  repeat first [apply stat_if_set_silent | apply stat_apps_silent | silent_step].
Qed.

Lemma load_resources_silent apps :
  forall resourceList, silent (load_resources HOST apps resourceList).
Proof.
  induction apps as [|app apps IH]; intro resourceList; simpl;
    repeat first [apply IH | silent_step].
Qed.

Lemma generateKubeClient_silent applier : silent (generateKubeClient HOST applier).
Proof. unfold generateKubeClient. repeat silent_step. Qed.

Lemma Validate_rejects applier w :
  both_or_neither (Cluster applier) = true ->
  Validate HOST applier w
  = (Some "only one of values of both kubeConfig and customConfig must exist"%string,
     w, []).
Proof. intro H. unfold Validate. rewrite H. reflexivity. Qed.

(** If anything of the search has happened, [Validate] has let the
    configuration through. *)
Lemma Run_searches applier opts w applier1 w1 t1 :
  ParseArgsAndConfigFile HOST applier opts w = ((None, applier1), w1, t1) ->
  trace (Run SIM HOST SORT applier opts w) <> [] ->
  result (Validate HOST applier1 w1) = None.
Proof.
  intros Hparse Ht.
  pose proof (ParseArgsAndConfigFile_silent applier opts w) as Hq.
  rewrite Hparse in Hq. unfold trace in Hq; simpl in Hq. subst t1.
  unfold Run in Ht. unfold bind at 1 in Ht. rewrite Hparse in Ht.
  unfold bind at 1 in Ht.
  destruct (Validate HOST applier1 w1) as [[[e|] w2] t2] eqn:Hv; [|reflexivity].
  exfalso. apply Ht.
  pose proof (Validate_silent applier1 w1) as Hq. rewrite Hv in Hq.
  unfold trace in *; simpl in *. now subst t2.
Qed.

(** C9.  On the configuration read from the file: when both the kubeconfig
    and the custom cluster are given, or neither is, [Run] returns the error
    of [Validate] with nothing of the search done, not even a file looked
    up; and whenever anything of the search is done, exactly one of the two
    is given. *)
Theorem C9_exactly_one_cluster_source (applier : DefaulterApply) (opts : Options.t)
  (w : World) (applier1 : DefaulterApply) (w1 : World) (t1 : list Event) :
  ParseArgsAndConfigFile HOST applier opts w = ((None, applier1), w1, t1) ->
  ((simonv1.KubeConfig (Cluster applier1) = ""%string
    /\ simonv1.CustomCluster (Cluster applier1) = ""%string)
   \/ (simonv1.KubeConfig (Cluster applier1) <> ""%string
       /\ simonv1.CustomCluster (Cluster applier1) <> ""%string) ->
   Run SIM HOST SORT applier opts w
   = (Some ("Invalid information: only one of values of both kubeConfig and customConfig must exist "%string),
      w1, []))
  /\ (trace (Run SIM HOST SORT applier opts w) <> [] ->
      (simonv1.KubeConfig (Cluster applier1) = ""%string
       /\ simonv1.CustomCluster (Cluster applier1) <> ""%string)
      \/ (simonv1.KubeConfig (Cluster applier1) <> ""%string
          /\ simonv1.CustomCluster (Cluster applier1) = ""%string)).
Proof.
  intro Hparse.
  pose proof (ParseArgsAndConfigFile_silent applier opts w) as Hq.
  rewrite Hparse in Hq. unfold trace in Hq; simpl in Hq. subst t1.
  split.
  - intro Hc. apply both_or_neither_spec in Hc.
    unfold Run. unfold bind at 1. rewrite Hparse.
    unfold bind at 1. rewrite (Validate_rejects _ _ Hc). reflexivity.
  - intro Ht. pose proof (Run_searches _ _ _ _ _ _ Hparse Ht) as Hv.
    destruct (both_or_neither (Cluster applier1)) eqn:Hb.
    + rewrite (Validate_rejects _ _ Hb) in Hv. discriminate Hv.
    + unfold both_or_neither in Hb.
      destruct (simonv1.KubeConfig (Cluster applier1)),
        (simonv1.CustomCluster (Cluster applier1)); simpl in Hb;
        try discriminate; [left|right]; split; congruence.
Qed.


(** *** More on [Run] and what it calls before the search *)

(** X1.  [Run] reads nothing of its receiver: [ParseArgsAndConfigFile] overwrites
    every field before any is used. *)
Theorem Run_ignores_receiver (applier applier' : DefaulterApply) (opts : Options.t)
  (w : World) :
  Run SIM HOST SORT applier opts w = Run SIM HOST SORT applier' opts w.
Proof.
  unfold Run, ParseArgsAndConfigFile, bind, quiet, ret.
  destruct (ioutil_ReadFile HOST (Options.SimonConfig opts) w) as [[e|b] w1];
    [reflexivity|].
  destruct (yaml_YAMLToJSON HOST b) as [e|j]; [reflexivity|].
  destruct (json_Unmarshal HOST j) as [e|cr]; reflexivity.
Qed.

(** X13.  [ParseArgsAndConfigFile] is all or nothing: when reading the
    file, turning it into JSON or decoding it fails, the applier is as it
    was; when all three work, every field is written, from the file and the
    options alone. *)
Theorem ParseArgsAndConfigFile_all_or_nothing (applier applier' : DefaulterApply)
  (opts : Options.t) (w : World) :
  match result (ParseArgsAndConfigFile HOST applier opts w) with
  | (Some _, applier1) => applier1 = applier
  | (None, applier1) =>
      result (ParseArgsAndConfigFile HOST applier' opts w) = (None, applier1)
      /\ UseGreed applier1 = Options.UseGreed opts
      /\ SchedulerConfig applier1 = Options.DefaultSchedulerConfigFile opts
  end.
Proof.
  unfold ParseArgsAndConfigFile, result. unfold_m.
  destruct (ioutil_ReadFile HOST (Options.SimonConfig opts) w) as [[e|b] w1];
    simpl; [reflexivity|].
  destruct (yaml_YAMLToJSON HOST b) as [e|j]; simpl; [reflexivity|].
  destruct (json_Unmarshal HOST j) as [e|cr]; simpl; auto.
Qed.

Lemma stat_if_set_read_only path what w :
  (forall p w0, snd (os_Stat HOST p w0) = w0) ->
  exists r,
    stat_if_set HOST path what w = (r, w, [])
    /\ (r = None <-> is_empty path = true \/ fst (os_Stat HOST path w) = None).
Proof.
  intro Hro. unfold stat_if_set.
  destruct (is_empty path) eqn:He.
  - exists None. split; [reflexivity|]. tauto.
  - unfold_m. specialize (Hro path w).
    destruct (os_Stat HOST path w) as [[e|] w1]; simpl in *; subst w1.
    + eexists. split; [reflexivity|].
      split; [discriminate|]. intros [H|H]; discriminate H.
    + exists None. split; [reflexivity|]. tauto.
Qed.

Lemma stat_apps_read_only apps w :
  (forall p w0, snd (os_Stat HOST p w0) = w0) ->
  exists r,
    stat_apps HOST apps w = (r, w, [])
    /\ (r = None
        <-> Forall (fun p => fst (os_Stat HOST p w) = None) (map simonv1.Path apps)).
Proof.
  intro Hro. induction apps as [|app apps IH]; simpl.
  - exists None. split; [reflexivity|]. split; [constructor|reflexivity].
  - unfold_m. pose proof (Hro (simonv1.Path app) w) as Hw.
    destruct (os_Stat HOST (simonv1.Path app) w) as [[e|] w1] eqn:Hs;
      simpl in Hw; subst w1.
    + eexists. split; [reflexivity|].
      split; [discriminate|]. intro H. inversion H as [|? ? H1 _]; subst.
      rewrite Hs in H1. discriminate H1.
    + destruct IH as (r & -> & Hr). exists r. split; [reflexivity|].
      rewrite Hr. split; [|intro H; now inversion H].
      intro H. constructor; [now rewrite Hs|assumption].
Qed.

(** X4.  When looking a path up changes nothing, [Validate] changes nothing, and
    it lets a configuration through exactly when one of the two cluster
    sources is given, not both, and every path of [checked_paths] is
    found. *)
Theorem Validate_accepts (applier : DefaulterApply) (w : World) :
  (forall p w0, snd (os_Stat HOST p w0) = w0) ->
  exists r,
    Validate HOST applier w = (r, w, [])
    /\ (r = None
        <-> both_or_neither (Cluster applier) = false
            /\ Forall (fun p => fst (os_Stat HOST p w) = None)
                 (checked_paths applier)).
Proof.
  intro Hro.
  set (ok := fun p => fst (os_Stat HOST p w) = None).
  assert (Hall : Forall ok (checked_paths applier)
                 <-> ((is_empty (simonv1.KubeConfig (Cluster applier)) = true
                       \/ ok (simonv1.KubeConfig (Cluster applier)))
                      /\ (is_empty (simonv1.CustomCluster (Cluster applier)) = true
                          \/ ok (simonv1.CustomCluster (Cluster applier)))
                      /\ (is_empty (SchedulerConfig applier) = true
                          \/ ok (SchedulerConfig applier))
                      /\ (is_empty (NewNode applier) = true \/ ok (NewNode applier)))
                     /\ Forall ok (map simonv1.Path (AppList applier))).
  { unfold checked_paths. rewrite Forall_app. simpl filter.
    destruct (is_empty (simonv1.KubeConfig (Cluster applier)));
      destruct (is_empty (simonv1.CustomCluster (Cluster applier)));
      destruct (is_empty (SchedulerConfig applier));
      destruct (is_empty (NewNode applier)); simpl;
      rewrite ?Forall_cons_iff; rewrite ?Forall_nil_iff;
      intuition discriminate. }
  unfold Validate.
  destruct (both_or_neither (Cluster applier)).
  { eexists. split; [reflexivity|]. split; [discriminate|]. intros [H _]. discriminate H. }
  unfold bind.
  destruct (stat_if_set_read_only (simonv1.KubeConfig (Cluster applier))
              "invalid path of kubeConfig: " w Hro) as (r1 & -> & H1).
  destruct (stat_if_set_read_only (simonv1.CustomCluster (Cluster applier))
              "invalid path of customConfig: " w Hro) as (r2 & E2 & H2).
  destruct (stat_if_set_read_only (SchedulerConfig applier)
              "invalid path of scheduler config: " w Hro) as (r3 & E3 & H3).
  destruct (stat_if_set_read_only (NewNode applier)
              "invalid path of newNode: " w Hro) as (r4 & E4 & H4).
  destruct (stat_apps_read_only (AppList applier) w Hro) as (r5 & E5 & H5).
  fold ok in H1, H2, H3, H4, H5.
  destruct r1 as [e1|].
  { eexists. split; [reflexivity|]. split; [discriminate|].
    intros (_ & Hp). apply Hall in Hp. destruct Hp as ((Hk & _) & _).
    apply H1 in Hk. discriminate. }
  rewrite E2. destruct r2 as [e2|].
  { eexists. split; [reflexivity|]. split; [discriminate|].
    intros (_ & Hp). apply Hall in Hp. destruct Hp as ((_ & Hk & _) & _).
    apply H2 in Hk. discriminate. }
  rewrite E3. destruct r3 as [e3|].
  { eexists. split; [reflexivity|]. split; [discriminate|].
    intros (_ & Hp). apply Hall in Hp. destruct Hp as ((_ & _ & Hk & _) & _).
    apply H3 in Hk. discriminate. }
  rewrite E4. destruct r4 as [e4|].
  { eexists. split; [reflexivity|]. split; [discriminate|].
    intros (_ & Hp). apply Hall in Hp. destruct Hp as ((_ & _ & _ & Hk) & _).
    apply H4 in Hk. discriminate. }
  rewrite E5. exists r5. split; [now rewrite !app_nil_r|].
  split.
  - intro H. split; [reflexivity|]. apply Hall.
    split; [|now apply H5].
    repeat split; [now apply H1|now apply H2|now apply H3|now apply H4].
  - intros (_ & Hp). apply Hall in Hp. now apply H5.
Qed.

Lemma generateKubeClient_unset applier w :
  simonv1.KubeConfig (Cluster applier) = ""%string ->
  generateKubeClient HOST applier w = (inr None, w, []).
Proof. unfold generateKubeClient. intros ->. reflexivity. Qed.

Lemma generateKubeClient_set applier w :
  result (generateKubeClient HOST applier w) = inr None ->
  simonv1.KubeConfig (Cluster applier) = ""%string.
Proof.
  unfold generateKubeClient.
  destruct (simonv1.KubeConfig (Cluster applier)) eqn:Hk; [reflexivity|].
  simpl. unfold_m. unfold result.
  destruct (utils_GetMasterFromKubeConfig HOST _ w) as [[e|m] w1]; simpl;
    [discriminate|].
  destruct (clientcmd_BuildConfigFromFlags HOST _ _ w1) as [[e|c] w2]; simpl;
    [discriminate|].
  destruct (clientset_NewForConfig HOST c w2) as [[e|k] w3]; simpl; discriminate.
Qed.

(** X5.  [generateKubeClient] gives no client and no error exactly when no
    kubeconfig is set, and then it calls nothing: with a kubeconfig it gives
    a client or an error. *)
Theorem generateKubeClient_nil (applier : DefaulterApply) (w : World) :
  (simonv1.KubeConfig (Cluster applier) = ""%string ->
   generateKubeClient HOST applier w = (inr None, w, []))
  /\ (result (generateKubeClient HOST applier w) = inr None ->
      simonv1.KubeConfig (Cluster applier) = ""%string).
Proof.
  split; [apply generateKubeClient_unset|apply generateKubeClient_set].
Qed.

Lemma load_resources_names apps :
  forall acc w rl w' t,
    load_resources HOST apps acc w = (inr rl, w', t) ->
    map Name rl = map Name acc ++ map simonv1.Name apps.
Proof.
  induction apps as [|app apps IH]; intros acc w rl w' t H; simpl in H.
  - unfold ret in H. injection H as <- _ _. now rewrite app_nil_r.
  - unfold_m.
    destruct (simonv1.Chart app);
      run_in H; try discriminate H;
      match goal with
      | Hrec : load_resources _ _ _ _ = _ |- _ =>
          injection H as -> _ _; apply IH in Hrec; rewrite Hrec, map_app;
          simpl; now rewrite <- app_assoc
      end.
Qed.

(** X6.  The resources [Run] collects are one per application of the
    configuration, under the application's name and in the order of the
    list. *)
Theorem load_resources_in_order (apps : list simonv1.AppInfo) (w : World)
  (rl : list ResourceInfo) (w' : World) (t : list Event) :
  load_resources HOST apps [] w = (inr rl, w', t) ->
  map Name rl = map simonv1.Name apps /\ List.length rl = List.length apps.
Proof.
  intro H. apply load_resources_names in H. simpl in H.
  split; [assumption|].
  rewrite <- (length_map Name rl), H. apply length_map.
Qed.

(** [Run] either returns an error with nothing of the search done, or it
    has read the configuration, let it through [Validate], collected the
    resources, decoded the node, made the client and the scheduler
    configuration, and then is the search on these. *)
Lemma Run_inv applier opts w r w' t :
  Run SIM HOST SORT applier opts w = (r, w', t) ->
  (t = [] /\ r <> None)
  \/ exists applier1 w1 w2 rl w3 node w4 kc w5 cc w6,
      ParseArgsAndConfigFile HOST applier opts w = ((None, applier1), w1, [])
      /\ Validate HOST applier1 w1 = (None, w2, [])
      /\ load_resources HOST (AppList applier1) [] w2 = (inr rl, w3, [])
      /\ utils_DecodeYamlFile HOST (NewNode applier1) w3 = (Some node, w4)
      /\ generateKubeClient HOST applier1 w4 = (inr kc, w5, [])
      /\ getAndSetSchedulerConfig HOST (SchedulerConfig applier1) (UseGreed applier1) w5
         = (inr cc, w6)
      /\ get_result SIM HOST SORT opts applier1 kc cc node rl w6 = (r, w', t).
Proof.
  intro H. unfold Run in H.
  unfold bind at 1 in H.
  pose proof (ParseArgsAndConfigFile_silent applier opts w) as Hq.
  destruct (ParseArgsAndConfigFile HOST applier opts w)
    as [[[e0 applier1] w1] t1] eqn:Hparse.
  unfold trace in Hq; simpl in Hq; subst t1.
  destruct e0 as [e0|];
    [unfold ret in H; done_in H; left; split; [reflexivity|discriminate]|].
  unfold bind at 1 in H.
  pose proof (Validate_silent applier1 w1) as Hq.
  destruct (Validate HOST applier1 w1) as [[e1 w2] t2] eqn:Hval.
  unfold trace in Hq; simpl in Hq; subst t2.
  destruct e1 as [e1|];
    [unfold ret in H; done_in H; left; split; [reflexivity|discriminate]|].
  unfold bind at 1 in H.
  pose proof (load_resources_silent (AppList applier1) [] w2) as Hq.
  destruct (load_resources HOST (AppList applier1) [] w2) as [[rl w3] t3] eqn:Hload.
  unfold trace in Hq; simpl in Hq; subst t3.
  destruct rl as [e2|rl];
    [unfold ret in H; done_in H; left; split; [reflexivity|discriminate]|].
  unfold bind at 1 in H. unfold quiet at 1 in H.
  destruct (utils_DecodeYamlFile HOST (NewNode applier1) w3) as [node w4] eqn:Hnode.
  destruct node as [node|];
    [|unfold ret in H; done_in H; left; split; [reflexivity|discriminate]].
  unfold bind at 1 in H.
  pose proof (generateKubeClient_silent applier1 w4) as Hq.
  destruct (generateKubeClient HOST applier1 w4) as [[kc w5] t5] eqn:Hkube.
  unfold trace in Hq; simpl in Hq; subst t5.
  destruct kc as [e3|kc];
    [unfold ret in H; done_in H; left; split; [reflexivity|discriminate]|].
  unfold bind at 1 in H. unfold quiet at 1 in H.
  destruct (getAndSetSchedulerConfig HOST (SchedulerConfig applier1)
              (UseGreed applier1) w5) as [cc w6] eqn:Hcc.
  destruct cc as [e4|cc];
    [unfold ret in H; done_in H; left; split; [reflexivity|discriminate]|].
  right. exists applier1, w1, w2, rl, w3, node, w4, kc, w5, cc, w6.
  repeat (split; [assumption|]).
  destruct (get_result SIM HOST SORT opts applier1 kc cc node rl w6) as [[r0 w7] t7].
  simpl in H. now injection H as -> -> ->.
Qed.

(** X2.  [Run] returns [nil] only after a search: every failure before the
    search is returned as an error, and a [nil] comes with at least one
    simulator made and at most 100. *)
Theorem Run_nil_only_after_search (applier : DefaulterApply) (opts : Options.t)
  (w : World) :
  (result (Run SIM HOST SORT applier opts w) = None ->
   1 <= count is_CallNew (trace (Run SIM HOST SORT applier opts w)) <= 100)
  /\ (count is_CallNew (trace (Run SIM HOST SORT applier opts w)) = 0 ->
      trace (Run SIM HOST SORT applier opts w) = []
      /\ exists e, result (Run SIM HOST SORT applier opts w) = Some e).
Proof.
  destruct (Run SIM HOST SORT applier opts w) as [[r w'] t] eqn:H.
  unfold result, trace; simpl.
  apply Run_inv in H.
  destruct H as [(-> & Hr)
                |(applier1 & w1 & w2 & rl & w3 & node & w4 & kc & w5 & cc & w6
                  & _ & _ & _ & _ & _ & _ & H)].
  - split; [intros ->; now destruct Hr|].
    intros _. split; [reflexivity|]. destruct r as [e|]; [now exists e|now destruct Hr].
  - rewrite get_result_loop in H.
    pose proof (search_starts opts applier1 kc cc node rl 99 0 w6) as Hs.
    destruct (search SIM HOST SORT opts applier1 kc cc node rl 100 0 w6)
      as [[x w7] t7] eqn:Hl.
    apply search_facts in Hl. destruct Hl as (Hle & _).
    unfold result, trace in *; simpl in *. injection H as _ _ <-.
    split; [intros _; lia|]. intro H0. lia.
Qed.

Lemma ParseArgsAndConfigFile_options applier opts w applier1 w1 t1 :
  ParseArgsAndConfigFile HOST applier opts w = ((None, applier1), w1, t1) ->
  UseGreed applier1 = Options.UseGreed opts
  /\ SchedulerConfig applier1 = Options.DefaultSchedulerConfigFile opts.
Proof.
  unfold ParseArgsAndConfigFile. unfold_m. intro H.
  run_in H; try discriminate H. injection H as <- _ _. auto.
Qed.

(** X3.  When [Run] gets to the search, it searches for the applications of
    the configuration it read, by name and in order, without a kube client
    exactly when the custom cluster file is given, and with [UseGreed] and
    the scheduler file as the options have them, whatever the configuration
    file says. *)
Theorem Run_searches_the_configuration (applier : DefaulterApply) (opts : Options.t)
  (w : World) :
  trace (Run SIM HOST SORT applier opts w) <> [] ->
  exists applier1 kc cc node rl w6,
    result (ParseArgsAndConfigFile HOST applier opts w) = (None, applier1)
    /\ UseGreed applier1 = Options.UseGreed opts
    /\ SchedulerConfig applier1 = Options.DefaultSchedulerConfigFile opts
    /\ map Name rl = map simonv1.Name (AppList applier1)
    /\ (kc = None <-> simonv1.CustomCluster (Cluster applier1) <> ""%string)
    /\ Run SIM HOST SORT applier opts w
       = get_result SIM HOST SORT opts applier1 kc cc node rl w6.
Proof.
  intro Ht.
  destruct (Run SIM HOST SORT applier opts w) as [[r w'] t] eqn:H.
  unfold trace in Ht; simpl in Ht.
  pose proof H as H'. apply Run_inv in H'.
  destruct H' as [(-> & _)
                 |(applier1 & w1 & w2 & rl & w3 & node & w4 & kc & w5 & cc & w6
                   & Hp & Hv & Hl & _ & Hk & _ & Hg)]; [now destruct Ht|].
  exists applier1, kc, cc, node, rl, w6.
  split; [now rewrite Hp|].
  destruct (ParseArgsAndConfigFile_options _ _ _ _ _ _ Hp) as (Hgreed & Hfile).
  split; [assumption|]. split; [assumption|].
  split; [now apply load_resources_names in Hl|].
  split; [|now rewrite Hg].
  assert (Hb : both_or_neither (Cluster applier1) = false).
  { destruct (both_or_neither (Cluster applier1)) eqn:Hb; [|reflexivity].
    rewrite (Validate_rejects _ _ Hb) in Hv. discriminate Hv. }
  pose proof (generateKubeClient_set applier1 w4) as Hnil'.
  rewrite Hk in Hnil'. unfold result in Hnil'; simpl in Hnil'.
  unfold both_or_neither in Hb.
  destruct (simonv1.KubeConfig (Cluster applier1)) eqn:Ek,
    (simonv1.CustomCluster (Cluster applier1)) eqn:Ec; simpl in Hb;
    try discriminate Hb.
  - rewrite generateKubeClient_unset in Hk by assumption. injection Hk as <- _.
    split; [discriminate|reflexivity].
  - split; [|intro Hne; now destruct Hne].
    intros ->. specialize (Hnil' eq_refl). discriminate Hnil'.
Qed.

End Properties.

(** * The scheduler configuration *)

Section SchedulerFacts.
Context {World CompletedConfig : Type}.
Context {OtherPoints PluginConfigs OtherSettings LogOptions : Type}.
Variable ENV : @scheduler.Env World CompletedConfig OtherPoints PluginConfigs
                 OtherSettings LogOptions.

(** X7.  Whenever [getAndSetSchedulerConfig] returns a configuration, it is what
    [InitKubeSchedulerConfiguration] made of options with the scheduler file
    of the applier and a component configuration in which, whatever the
    defaults were - no profile, a profile without plugins, plugins with a
    bind set of their own - the first profile is the default scheduler's and
    binds through Simon alone with the default binder disabled, scores
    through Simon alone with [UseGreed] and as the defaults say without it,
    and 100 percent of the nodes are scored; the other extension points and
    the plugin configuration of that profile, the later profiles and all
    other settings are the defaults'. *)
Theorem getAndSetSchedulerConfig_sets (applier : DefaulterApply) (w : World)
  (cc : CompletedConfig) :
  fst (scheduler.getAndSetSchedulerConfig ENV applier w) = inr cc ->
  exists kcfg opts p plugins,
    scheduler.converted_defaults ENV = inr kcfg
    /\ fst (scheduler.utils_InitKubeSchedulerConfiguration ENV opts w) = inr cc
    /\ scheduler.ConfigFile opts = SchedulerConfig applier
    /\ scheduler.PercentageOfNodesToScore (scheduler.ComponentConfig opts) = 100%Z
    /\ scheduler.OtherFields (scheduler.ComponentConfig opts)
       = scheduler.OtherFields kcfg
    /\ scheduler.Profiles (scheduler.ComponentConfig opts)
       = p :: tl (scheduler.Profiles kcfg)
    /\ scheduler.SchedulerName p = scheduler.corev1_DefaultSchedulerName ENV
    /\ scheduler.PluginConfig p
       = match scheduler.Profiles kcfg with
         | [] => scheduler.no_plugin_config ENV
         | p0 :: _ => scheduler.PluginConfig p0
         end
    /\ scheduler.ProfilePlugins p = Some plugins
    /\ scheduler.Bind plugins
       = Some {| scheduler.Enabled := [scheduler.simon_plugin ENV];
                 scheduler.Disabled := [scheduler.default_binder ENV] |}
    /\ scheduler.Score plugins
       = (if UseGreed applier
          then Some {| scheduler.Enabled := [scheduler.simon_plugin ENV];
                       scheduler.Disabled := [] |}
          else match scheduler.first_plugins kcfg with
               | Some pl => scheduler.Score pl
               | None => None
               end)
    /\ scheduler.OtherExtensionPoints plugins
       = match scheduler.first_plugins kcfg with
         | Some pl => scheduler.OtherExtensionPoints pl
         | None => scheduler.no_points ENV
         end.
Proof.
  unfold scheduler.getAndSetSchedulerConfig.
  destruct (scheduler.converted_defaults ENV) as [e|kcfg]; [discriminate|].
  set (opts := {| scheduler.ComponentConfig :=
                    scheduler.set_configuration ENV (UseGreed applier) kcfg;
                  scheduler.ConfigFile := SchedulerConfig applier;
                  scheduler.Logs := scheduler.logs_NewOptions ENV |}).
  destruct (scheduler.utils_InitKubeSchedulerConfiguration ENV opts w)
    as [[e|cc0] w1] eqn:Hinit; simpl; [discriminate|].
  intro E. injection E as ->.
  exists kcfg, opts.
  unfold scheduler.first_plugins.
  destruct kcfg as [pct [|p0 rest] other]; simpl.
  - eexists _, _. rewrite Hinit.
    repeat split; destruct (UseGreed applier); reflexivity.
  - eexists _, _. rewrite Hinit.
    repeat split;
      destruct (scheduler.ProfilePlugins p0), (UseGreed applier); reflexivity.
Qed.
End SchedulerFacts.

(** * The small cluster at work *)



(** Application A placed, the operator answers no: the pass is a success
    although application B was never handed to the scheduler. *)
Lemma C2_counterexample :
  result (Demo.pass Demo.two_apps false true false 0 true 0) = RoundEnd true
  /\ outcomes (trace (Demo.pass Demo.two_apps false true false 0 true 0))
     = [("A"%string, true)]
  /\ List.length (batches (trace (Demo.pass Demo.two_apps false true false 0 true 0)))
     = 1
  /\ outcomes (trace (Demo.pass Demo.two_apps false true false 0 true 0))
     <> map placed (Demo.resources_of Demo.two_apps).
Proof.
  repeat split; try (vm_compute; reflexivity).
  vm_compute. discriminate.
Qed.

(** Without the interactive option, at size 4 both applications fit. *)
Lemma C2_witness :
  outcomes (trace (Demo.pass Demo.two_apps false false true 0 true 4))
  = map placed (Demo.resources_of Demo.two_apps).
Proof.
  assert (H : Demo.pass Demo.two_apps false false true 0 true 4
              = (RoundEnd true, 2,
                 trace (Demo.pass Demo.two_apps false false true 0 true 4)))
    by (vm_compute; reflexivity).
  destruct (proj1 (proj2 (C2_round_outcome _ _ _ _ _ _ _ _ _ _ _ _ _ _ H)) eq_refl)
    as (rl1 & rl2 & Hrl & _ & Hout & Hni).
  rewrite (Hni eq_refl), app_nil_r in Hrl. rewrite Hrl. exact Hout.
Defined.

(** A search that runs out of sizes and a search that succeeds hand the
    same value to the caller of [Run]. *)
Lemma C3_counterexample :
  result (Demo.run Demo.never_fits false false true 0 true) = None
  /\ count is_CallNew (trace (Demo.run Demo.never_fits false false true 0 true)) = 100
  /\ count is_PrintCongratulations
       (trace (Demo.run Demo.never_fits false false true 0 true)) = 0
  /\ count is_PrintCongratulations
       (trace (Demo.run Demo.fits_at_1 false false true 0 true)) = 1
  /\ result (Demo.run Demo.fits_at_1 false false true 0 true)
     = result (Demo.run Demo.never_fits false false true 0 true).
Proof. repeat split; vm_compute; reflexivity. Qed.



(** No application: every one of the 100 passes builds its simulator and
    none of them succeeds. *)
Lemma C6_counterexample :
  result (Demo.run Demo.no_apps false false true 0 true) = None
  /\ count is_CallNew (trace (Demo.run Demo.no_apps false false true 0 true)) = 100
  /\ trial_sizes (trace (Demo.run Demo.no_apps false false true 0 true)) = seq 0 100
  /\ count is_PrintCongratulations
       (trace (Demo.run Demo.no_apps false false true 0 true)) = 0.
Proof. repeat split; vm_compute; reflexivity. Qed.

(** Whatever the options, the search that finds no size makes 100
    simulators. *)
Lemma C7_counterexample :
  count is_CallNew (trace (Demo.run Demo.never_fits false false true 0 true)) = 100
  /\ count is_CallNew (trace (Demo.run Demo.never_fits false true true 0 true)) = 100
  /\ count is_CallNew (trace (Demo.run Demo.never_fits true false true 0 true)) = 100
  /\ count is_CallNew (trace (Demo.run Demo.never_fits true true true 0 true)) = 100.
Proof. repeat split; vm_compute; reflexivity. Qed.


Lemma C9_witness :
  Demo.run Demo.both_sources false false true 1 true
  = (Some ("Invalid information: only one of values of both kubeConfig and customConfig must exist "%string),
     0, []).
Proof.
  refine (proj1 (C9_exactly_one_cluster_source (Demo.simulator 1 true)
                   (Demo.host Demo.both_sources true) Demo.sorting Demo.zero
                   (Demo.options false false) 0 _ _ _ eq_refl) _).
  right. split; discriminate.
Defined.


(** The configuration the search runs on passes [Validate]. *)
Lemma Validate_accepts_witness :
  Validate (Demo.host Demo.fits_at_1 true) (Demo.applier_of Demo.fits_at_1 false) 0
  = (None, 0, @nil (@Event Demo.Pod)).
Proof.
  destruct (Validate_accepts (Pod := Demo.Pod) (Demo.host Demo.fits_at_1 true)
              (Demo.applier_of Demo.fits_at_1 false) 0 (fun p w0 => eq_refl))
    as (r & E & Hr).
  rewrite E. f_equal. f_equal. apply Hr.
  split; [reflexivity|]. repeat constructor.
Defined.

Lemma load_resources_witness :
  map Name (Demo.resources_of Demo.two_apps) = ["A"%string; "B"%string].
Proof.
  exact (proj1 (load_resources_in_order (Pod := Demo.Pod)
                  (Demo.host Demo.two_apps true)
                  (AppList (Demo.applier_of Demo.two_apps false)) 0
                  (Demo.resources_of Demo.two_apps) 0 [] eq_refl)).
Defined.

Lemma Run_searches_witness :
  exists kc cc node rl w6,
    map Name rl = ["A"%string]
    /\ kc = None
    /\ Demo.run Demo.fits_at_1 false false true 1 true
       = get_result (Demo.simulator 1 true) (Demo.host Demo.fits_at_1 true)
           Demo.sorting (Demo.options false false)
           (Demo.applier_of Demo.fits_at_1 false) kc cc node rl w6.
Proof.
  assert (Ht : trace (Demo.run Demo.fits_at_1 false false true 1 true) <> [])
    by (vm_compute; discriminate).
  destruct (Run_searches_the_configuration _ _ _ _ _ _ Ht)
    as (applier1 & kc & cc & node & rl & w6 & Hp & _ & _ & Hn & Hk & Hr).
  injection Hp as <-.
  exists kc, cc, node, rl, w6.
  split; [exact Hn|]. split; [|exact Hr].
  apply Hk. discriminate.
Defined.

(** Application A placed and saved, the operator says no: success at 0. *)
Lemma search_declined_witness :
  Demo.loop Demo.two_apps false true false 0 true
  = (Broke 0, 1, trace (Demo.loop Demo.two_apps false true false 0 true))
  /\ exists t0,
      trace (Demo.loop Demo.two_apps false true false 0 true)
      = t0 ++ [CallConfirm (prompt_of "A") false; CallClose; PrintCongratulations].
Proof.
  assert (H : Demo.loop Demo.two_apps false true false 0 true
              = (Broke 0, 1, trace (Demo.loop Demo.two_apps false true false 0 true)))
    by (vm_compute; reflexivity).
  split; [exact H|].
  refine (proj2 (proj2 (search_declined_is_success _ _ _ _ _ _ _ _ _ _ _ _ _ _ H _))).
  vm_compute. repeat (first [left; reflexivity | right]).
Defined.

Lemma search_answer_witness :
  exists t0 t1,
    trace (Demo.loop Demo.fits_at_1 false false true 1 true)
    = t0 ++ t1 ++ [PrintCongratulations]
    /\ outcomes t1 = [("A"%string, true)]
    /\ trial_sizes t1 = [1]
    /\ List.length (failures t0) = 1
    /\ trial_sizes t0 = [0].
Proof.
  assert (H : Demo.loop Demo.fits_at_1 false false true 1 true
              = (Broke 1, 1, trace (Demo.loop Demo.fits_at_1 false false true 1 true)))
    by (vm_compute; reflexivity).
  exact (search_answer_places_all _ _ _ (Demo.options false false) _ _ _ _ _
           _ _ _ _ eq_refl H).
Defined.

Lemma getAndSetSchedulerConfig_witness :
  exists opts,
    fst (scheduler.utils_InitKubeSchedulerConfiguration Demo.scheduler_env opts 0)
    = inr 2
    /\ map scheduler.SchedulerName
         (scheduler.Profiles (scheduler.ComponentConfig opts))
       = ["default-scheduler"%string; "other"%string]
    /\ scheduler.PercentageOfNodesToScore (scheduler.ComponentConfig opts) = 100%Z.
Proof.
  destruct (getAndSetSchedulerConfig_sets Demo.scheduler_env
              (Demo.applier_of Demo.fits_at_1 true) 0 2 eq_refl)
    as (kcfg & opts & p & plugins & Hc & Hi & _ & Hpct & _ & Hp & Hn & _).
  exists opts. split; [exact Hi|]. split; [|exact Hpct].
  injection Hc as <-. rewrite Hp. simpl. now rewrite Hn.
Defined.
